(** * PasteImageFilter: region algebra, demand propagation and the
      per-thread paste routine

    A shallow embedding of [itkPasteImageFilter.hxx].  The filter pastes a
    region of a source image into a destination image at a destination
    index; the output is produced thread by thread, each thread being handed
    one region of the output ([ThreadedGenerateData]).

    Conventions.
    - [n] is the image dimension (the template parameter of [Index], [Size]
      and [ImageRegion]); fixed-size arrays of length [n] are [vec _ n].
    - Index and offset components are signed integers of a fixed width
      ([IndexValueType], [OffsetValueType]) and are taken in [Z]; the two
      index operations of the routine wrap around at that width, which is a
      parameter.  Signed overflow being undefined in C++, the results on the
      index computation ask that the source region be representable, which
      makes the computed index exact.  Size components are unsigned
      ([SizeValueType]) and are taken in [N]; the routine only copies them.
    - Pixel buffers are total maps from indices to pixels; images are
      objects in a store and refer to their pixel container by identifier,
      so that two image objects can share one buffer (in-place execution). *)

From Stdlib Require Import ZArith NArith Lia.
From stdpp Require Import base tactics decidable option fin vector finite functions list.

Local Open Scope Z_scope.

(** ** Regions *)

(** [itk::ImageRegion]: an index and a size, read with [GetIndex] and
    [GetSize]. *)
Record ImageRegion (n : nat) : Type := mkRegion {
  GetIndex : vec Z n;
  GetSize : vec N n
}.
Arguments mkRegion {n} _ _.
Arguments GetIndex {n} _.
Arguments GetSize {n} _.

#[global] Instance ImageRegion_eq_dec {n} : EqDecision (ImageRegion n).
Proof. solve_decision. Defined.

Section RegionAlgebra.
Context {n : nat}.
Implicit Types (a b r : ImageRegion n) (i : vec Z n) (d : fin n).

(** First index past the region along dimension [d]. *)
Definition upper r d : Z := GetIndex r !!! d + Z.of_N (GetSize r !!! d).

(** The cell [i] lies in the region [r]. *)
Definition IsInside r i : Prop :=
  ∀ d, GetIndex r !!! d ≤ i !!! d < upper r d.

#[global] Instance IsInside_dec r i : Decision (IsInside r i).
Proof. unfold IsInside. apply _. Defined.

(** Exact componentwise difference and sum of indices. *)
Definition index_sub (i j : vec Z n) : vec Z n := vzip_with Z.sub i j.
Definition index_add (i o : vec Z n) : vec Z n := vzip_with Z.add i o.

(** The signed integer of [bits] bits that a value wraps around to;
    [IndexValueType] and [OffsetValueType] are signed integers of the same
    width, which the sources at hand do not fix. *)
Definition wrap (bits : positive) (z : Z) : Z :=
  (z + 2 ^ (Z.pos bits - 1)) mod 2 ^ Z.pos bits - 2 ^ (Z.pos bits - 1).

(** [Index - Index], giving an [Offset] (line 164), and [Index + Offset]
    (line 168), component by component in the signed arithmetic of the
    machine. *)
Definition Index_operator_minus (bits : positive) (i j : vec Z n) : vec Z n :=
  vzip_with (λ x y, wrap bits (x - y)) i j.
Definition Index_operator_plus (bits : positive) (i o : vec Z n) : vec Z n :=
  vzip_with (λ x y, wrap bits (x + y)) i o.

(** Every cell of the region has an index that the index type can hold:
    along each dimension the region starts and ends within the range of a
    signed integer of [bits] bits. *)
Definition representableRegion (bits : positive) r : Prop :=
  ∀ d, - 2 ^ (Z.pos bits - 1) ≤ GetIndex r !!! d ∧ upper r d ≤ 2 ^ (Z.pos bits - 1).

#[global] Instance representableRegion_dec bits r : Decision (representableRegion bits r).
Proof. unfold representableRegion. apply _. Defined.

(** Overlap length of two regions along one dimension. *)
Definition overlapLength a b d : Z :=
  Z.min (upper a d) (upper b d) - Z.max (GetIndex a !!! d) (GetIndex b !!! d).

(** Modelled from the spec: [ImageRegion::Crop] is declared outside the
    sources at hand; this is [crop] of section 4.1.  It gives no region
    when some dimension's overlap length is at most zero, and otherwise
    the region whose origin is the per-dimension maximum of the origins
    and whose size is the least upper end minus that origin, clamped to
    be non-negative. *)
Definition crop a b : option (ImageRegion n) :=
  if decide (∃ d, overlapLength a b d ≤ 0) then None
  else Some (mkRegion
               (fun_to_vec (λ d, Z.max (GetIndex a !!! d) (GetIndex b !!! d)))
               (fun_to_vec (λ d, Z.to_N (Z.min (upper a d) (upper b d)
                                         - Z.max (GetIndex a !!! d) (GetIndex b !!! d))))).

(** Modelled from the spec: [translate] of section 4.1, the origin moved
    by an offset, the size kept. *)
Definition translate r (offset : vec Z n) : ImageRegion n :=
  mkRegion (index_add (GetIndex r) offset) (GetSize r).

(** Modelled from the spec: [equals] of section 4.1, standing for
    [ImageRegion::operator==]: equality of origin and size. *)
Definition equals a b : bool := bool_decide (a = b).

(** Modelled from the spec: a region fits inside another one (section
    4.2) when along every dimension it starts no earlier and ends no
    later. *)
Definition fitsInside (inner outer : ImageRegion n) : Prop :=
  ∀ d, GetIndex outer !!! d ≤ GetIndex inner !!! d ∧ upper inner d ≤ upper outer d.

#[global] Instance fitsInside_dec inner outer : Decision (fitsInside inner outer).
Proof. unfold fitsInside. apply _. Defined.

(** *** Partitions of a requested region *)

(** Modelled from the spec: the union of the partitions (section 3); some
    partition of the list holds the cell. *)
Definition covered (ps : list (ImageRegion n)) i : Prop :=
  Exists (λ p, IsInside p i) ps.

#[global] Instance covered_dec ps i : Decision (covered ps i).
Proof. unfold covered. apply _. Defined.

(** Modelled from the spec: no two partitions of the list hold a common
    cell (section 3). *)
Definition PairwiseDisjoint (ps : list (ImageRegion n)) : Prop :=
  ∀ j k p q, ps !! j = Some p → ps !! k = Some q → j ≠ k →
             ∀ i, IsInside p i → IsInside q i → False.

(** The same, as a check that runs: two regions share no cell exactly
    when they crop to nothing. *)
Fixpoint pairwiseDisjointb (ps : list (ImageRegion n)) : bool :=
  match ps with
  | [] => true
  | p :: rest =>
      forallb (λ q, bool_decide (crop p q = None)) rest && pairwiseDisjointb rest
  end.

(** Modelled from the spec: the partitions handed out for one invocation
    (section 3) cover the requested region exactly and are pairwise
    disjoint. *)
Definition Covering (requested : ImageRegion n) (ps : list (ImageRegion n)) : Prop :=
  (∀ i, IsInside requested i ↔ covered ps i) ∧ PairwiseDisjoint ps.

End RegionAlgebra.

(** ** Images, pixel buffers and the world the filter runs in *)

(** An image object of the pipeline: the identifier of its pixel container
    and its region bookkeeping. *)
Record ImageObject (n : nat) : Type := mkImage {
  PixelContainer : nat;
  LargestPossibleRegion : ImageRegion n;
  RequestedRegion : ImageRegion n
}.
Arguments mkImage {n} _ _ _.
Arguments PixelContainer {n} _.
Arguments LargestPossibleRegion {n} _.
Arguments RequestedRegion {n} _.

(** One call of [ImageAlgorithm::Copy], as a storage provider that counts
    its calls would record it: the two image pointers and the two regions. *)
Record CopyCall (n : nat) : Type := mkCopyCall {
  inImage : nat;
  outImage : nat;
  inRegion : ImageRegion n;
  outRegion : ImageRegion n
}.
Arguments mkCopyCall {n} _ _ _ _.
Arguments inImage {n} _.
Arguments outImage {n} _.
Arguments inRegion {n} _.
Arguments outRegion {n} _.

(** Ways a call can end other than by returning.  The sources at hand raise
    nothing themselves; [NullDereference] stands for the use of a null image
    pointer, the other two are the error kinds the design names. *)
Inductive Failure : Type :=
| NullDereference
| InvalidPlacementError
| PreconditionError.

Section World.
Context {n : nat} {Pixel : Type}.

(** The store: image objects by pointer, pixel buffers by container
    identifier, the log of copy calls, and the progress counter. *)
Record World : Type := mkWorld {
  objects : nat → ImageObject n;
  heap : nat → vec Z n → Pixel;
  copies : list (CopyCall n);
  progress : nat
}.

Inductive Outcome (A : Type) : Type :=
| Completed (a : A) (w : World)
| Failed (e : Failure).
#[global] Arguments Completed {A} _ _.
#[global] Arguments Failed {A} _.

(** State and failure monad over the world. *)
Definition M (A : Type) : Type := World → Outcome A.

#[global] Instance M_ret : MRet M := λ A a w, Completed a w.

#[global] Instance M_bind : MBind M :=
  λ A B k m w, match m w with
               | Completed a w' => k a w'
               | Failed e => Failed e
               end.

Definition raise {A} (e : Failure) : M A := λ _, Failed e.

(** A pointer is dereferenced: null pointers fail. *)
Definition deref (p : option nat) : M nat :=
  match p with
  | Some a => mret a
  | None => raise NullDereference
  end.

(** Identifier of the pixel container of the image object at [p]. *)
Definition bufferOf (w : World) (p : nat) : nat := PixelContainer (objects w p).

End World.
Arguments World : clear implicits.
Arguments M : clear implicits.
Arguments Outcome : clear implicits.

Section ImageAlgorithm.
Context {n : nat} {Pixel : Type}.

(** Modelled from the spec: the bulk copy primitive of section 6, on
    buffers.  The cell of [outRegion] at a given offset from its origin
    receives the cell of the input at the same offset from the origin of
    [inRegion]; cells outside [outRegion] keep their value.  The callers
    pass regions of equal size. *)
Definition copyPixels (input output : vec Z n → Pixel)
    (inRegion outRegion : ImageRegion n) : vec Z n → Pixel :=
  λ i, if bool_decide (IsInside outRegion i)
       then input (index_add (GetIndex inRegion) (index_sub i (GetIndex outRegion)))
       else output i.

(** Modelled from the spec: the same primitive between the image objects at
    [a] and [b].  The call is logged, as a storage provider counting its
    calls would, and the pixel container of the output image is overwritten
    over [outRegion]; the input is read as it was before the call. *)
Definition copyBetween (a b : nat) (inRegion outRegion : ImageRegion n)
    : M n Pixel unit :=
  λ w, Completed tt
         (mkWorld (objects w)
                  (<[bufferOf w b :=
                       copyPixels (heap w (bufferOf w a)) (heap w (bufferOf w b))
                                  inRegion outRegion]> (heap w))
                  (copies w ++ [mkCopyCall a b inRegion outRegion])
                  (progress w)).

(** Modelled from the spec: [ImageAlgorithm::Copy( inImage, outImage,
    inRegion, outRegion )], whose code is not part of the sources at hand.
    Both pointers are dereferenced, then the copy takes place. *)
Definition ImageAlgorithm_Copy (inPtr outPtr : option nat)
    (inRegion outRegion : ImageRegion n) : M n Pixel unit :=
  a ← deref inPtr;
  b ← deref outPtr;
  copyBetween a b inRegion outRegion.

(** Modelled from the spec: [ProgressReporter::CompletedPixel], one unit of
    progress reported (section 4.3, step 6). *)
Definition CompletedPixel : M n Pixel unit :=
  λ w, Completed tt (mkWorld (objects w) (heap w) (copies w) (S (progress w))).

End ImageAlgorithm.

(** ** The filter object *)

(** The state of a [PasteImageFilter]: its own two members, and what it
    inherits from [InPlaceImageFilter] and [ProcessObject] as far as the code
    reads or writes it.  [CanRunInPlace] is a virtual of the base class
    decided by the image types; it is a field here because its code is not
    part of the sources at hand.  Image pointers may be null. *)
Record PasteImageFilter (n : nat) : Type := mkFilter {
  m_SourceRegion : ImageRegion n;
  m_DestinationIndex : vec Z n;
  m_InPlace : bool;
  m_NumberOfRequiredInputs : nat;
  CanRunInPlace : bool;
  Inputs : nat → option nat;
  Output : option nat
}.
Arguments mkFilter {n} _ _ _ _ _ _ _.
Arguments m_SourceRegion {n} _.
Arguments m_DestinationIndex {n} _.
Arguments m_InPlace {n} _.
Arguments m_NumberOfRequiredInputs {n} _.
Arguments CanRunInPlace {n} _.
Arguments Inputs {n} _ _.
Arguments Output {n} _.

Section Accessors.
Context {n : nat}.
Implicit Types this : PasteImageFilter n.

(** Inherited accessors ([InPlaceImageFilter], [ProcessObject]); their code
    is not part of the sources at hand, they are taken as plain reads and
    writes of the fields. *)
Definition GetInPlace this : bool := m_InPlace this.
Definition GetOutput this : option nat := Output this.
Definition GetInput this : option nat := Inputs this 0%nat.

Definition SetNthInput (k : nat) (p : option nat) this : PasteImageFilter n :=
  mkFilter (m_SourceRegion this) (m_DestinationIndex this) (m_InPlace this)
           (m_NumberOfRequiredInputs this) (CanRunInPlace this)
           (<[k := p]> (Inputs this)) (Output this).

(** Lines 39-75. *)
Definition SetSourceImage (src : option nat) this := SetNthInput 1 src this.
Definition GetSourceImage this : option nat := Inputs this 1%nat.
Definition SetDestinationImage (src : option nat) this := SetNthInput 0 src this.
Definition GetDestinationImage this : option nat := Inputs this 0%nat.

Definition SetNumberOfRequiredInputs (k : nat) this : PasteImageFilter n :=
  mkFilter (m_SourceRegion this) (m_DestinationIndex this) (m_InPlace this)
           k (CanRunInPlace this) (Inputs this) (Output this).

Definition InPlaceOff this : PasteImageFilter n :=
  mkFilter (m_SourceRegion this) (m_DestinationIndex this) false
           (m_NumberOfRequiredInputs this) (CanRunInPlace this)
           (Inputs this) (Output this).

(** Modelled from the spec: the plain setters of the placement (section 6),
    declared in the header, which is not part of the sources at hand. *)
Definition SetDestinationIndex (i : vec Z n) this : PasteImageFilter n :=
  mkFilter (m_SourceRegion this) i (m_InPlace this)
           (m_NumberOfRequiredInputs this) (CanRunInPlace this)
           (Inputs this) (Output this).

Definition SetSourceRegion (r : ImageRegion n) this : PasteImageFilter n :=
  mkFilter r (m_DestinationIndex this) (m_InPlace this)
           (m_NumberOfRequiredInputs this) (CanRunInPlace this)
           (Inputs this) (Output this).

(** [Index::Fill(v)] (line 36): every component set to [v]. *)
Definition Fill (v : Z) : vec Z n := vreplicate n v.

(** The constructor (lines 29-37), applied to the object as the base
    classes and the member initialisers left it. *)
Definition PasteImageFilter_new (base : PasteImageFilter n) : PasteImageFilter n :=
  SetDestinationIndex (Fill 0) (InPlaceOff (SetNumberOfRequiredInputs 2 base)).

(** A filter as a caller leaves it who constructs it, wires the two
    inputs and sets the source region, but never sets the destination
    index. *)
Definition pasteWithoutDestinationIndex (base : PasteImageFilter n)
    (dest source : nat) (region : ImageRegion n) : PasteImageFilter n :=
  SetSourceRegion region
    (SetSourceImage (Some source)
       (SetDestinationImage (Some dest) (PasteImageFilter_new base))).

(** The paste region in the index space of the destination (lines
    124-125). *)
Definition sourceRegionInDestinationImage this : ImageRegion n :=
  mkRegion (m_DestinationIndex this) (GetSize (m_SourceRegion this)).

(** Modelled from the spec: [delta] of section 4.3, the exact shift from
    destination to source indices. *)
Definition delta this : vec Z n :=
  index_sub (GetIndex (m_SourceRegion this)) (m_DestinationIndex this).

(** [GetInPlace() && CanRunInPlace()], the test of lines 189 and 220. *)
Definition runsInPlace this : bool := GetInPlace this && CanRunInPlace this.

End Accessors.

Section Filter.
Context {n : nat} {Pixel : Type}.

(** The width in bits of [IndexValueType] and [OffsetValueType]. *)
Variable bits : positive.

(** The value of a default-constructed [ImageRegion]; its constructor is
    not part of the sources at hand. *)
Variable defaultRegion : ImageRegion n.

(** [Superclass::GenerateInputRequestedRegion], whose code is not part of
    the sources at hand. *)
Variable Superclass_GenerateInputRequestedRegion :
  PasteImageFilter n → M n Pixel unit.

Implicit Types this : PasteImageFilter n.

(** The requested region of an image object, read and written (lines 96
    and 99); plain accessors of the image object. *)
Definition GetRequestedRegion (p : nat) : M n Pixel (ImageRegion n) :=
  λ w, Completed (RequestedRegion (objects w p)) w.

Definition SetRequestedRegion (p : nat) (r : ImageRegion n) : M n Pixel unit :=
  λ w, Completed tt
         (mkWorld (<[p := mkImage (PixelContainer (objects w p))
                                  (LargestPossibleRegion (objects w p)) r]> (objects w))
                  (heap w) (copies w) (progress w)).

(** Lines 77-100. *)
Definition GenerateInputRequestedRegion this : M n Pixel unit :=
  Superclass_GenerateInputRequestedRegion this;;
  let destPtr := GetInput this in
  let sourcePtr := GetSourceImage this in
  let outputPtr := GetOutput this in
  match destPtr, sourcePtr, outputPtr with
  | Some dest, Some source, Some output =>
      SetRequestedRegion source (m_SourceRegion this);;
      r ← GetRequestedRegion output;
      SetRequestedRegion dest r
  | _, _, _ => mret tt
  end.

(** Lines 102-231.  The progress reporter of line 114 is the progress
    counter of the world; the regions declared without initialiser at lines
    122, 123 and 159 start as [defaultRegion]. *)
Definition ThreadedGenerateData this (outputRegionForThread : ImageRegion n)
    (threadId : nat) : M n Pixel unit :=
  let destPtr := GetInput this in
  let sourcePtr := GetSourceImage this in
  let outputPtr := GetOutput this in
  let '(useSource, sourceRegionInDestinationImageCropped) :=
    match crop (sourceRegionInDestinationImage this) outputRegionForThread with
    | Some cropped => (true, cropped)
    | None => (false, defaultRegion)
    end in
  let useOnlySource :=
    useSource && equals sourceRegionInDestinationImageCropped outputRegionForThread in
  let sourceRegionInSourceImageCropped :=
    if useSource
    then
      let originalOffsetFromDestinationToSource :=
        Index_operator_minus bits (GetIndex (m_SourceRegion this))
                             (m_DestinationIndex this) in
      let sourceIndexInSourceImageCropped :=
        Index_operator_plus bits (GetIndex sourceRegionInDestinationImageCropped)
                            originalOffsetFromDestinationToSource in
      mkRegion sourceIndexInSourceImageCropped
               (GetSize sourceRegionInDestinationImageCropped)
    else defaultRegion in
  if negb useSource && negb (runsInPlace this)
  then
    ImageAlgorithm_Copy destPtr outputPtr outputRegionForThread outputRegionForThread;;
    CompletedPixel
  else if useOnlySource
  then
    ImageAlgorithm_Copy sourcePtr outputPtr
                        sourceRegionInSourceImageCropped outputRegionForThread;;
    CompletedPixel
  else
    (if negb (runsInPlace this)
     then ImageAlgorithm_Copy destPtr outputPtr
                              outputRegionForThread outputRegionForThread
     else mret tt);;
    ImageAlgorithm_Copy sourcePtr outputPtr
                        sourceRegionInSourceImageCropped
                        sourceRegionInDestinationImageCropped;;
    CompletedPixel.

(** Modelled from the spec: the scheduler of section 5, which hands the
    partitions of the requested output region to the per-thread routine;
    here one after the other, in list order, thread identifiers counting
    from [threadId]. *)
Fixpoint GenerateData this (partitions : list (ImageRegion n)) (threadId : nat)
    : M n Pixel unit :=
  match partitions with
  | [] => mret tt
  | outputRegionForThread :: rest =>
      ThreadedGenerateData this outputRegionForThread threadId;;
      GenerateData this rest (S threadId)
  end.

End Filter.

(** ** The value a covered cell is meant to receive *)

Section PasteCell.
Context {n : nat} {Pixel : Type}.

(** With the filter [this] wired to the image objects [dest], [source]
    and [output]: inside the paste region the source cell shifted by
    [delta], elsewhere the background (the destination, or what the output
    buffer already holds when the filter runs in place). *)
Definition pasteCell (this : PasteImageFilter n) (dest source output : nat)
    (w : World n Pixel) (i : vec Z n) : Pixel :=
  if bool_decide (IsInside (sourceRegionInDestinationImage this) i)
  then heap w (bufferOf w source)
            (index_add i (delta this))
  else if runsInPlace this then heap w (bufferOf w output) i
       else heap w (bufferOf w dest) i.

End PasteCell.

(** ** A concrete two-dimensional scene

    The concrete scenario of the specification: a 10 x 10 destination of
    zeros, a 4 x 4 source of ones, the whole source pasted at a given
    destination index.  Image object 0 is the destination, 1 the source, 2
    the output; object 3 is a second, 12 x 12 source. *)

Module Scenario.

Definition box (x y : Z) (sx sy : N) : ImageRegion 2 := mkRegion [# x; y] [# sx; sy].

(** A default-constructed region, index and size filled with zeros. *)
Definition zeroRegion : ImageRegion 2 := mkRegion (Fill 0) (vreplicate 2 0%N).

(** Indices of 64 bits. *)
Definition bits : positive := 64.

Definition whole : ImageRegion 2 := box 0 0 10 10.
Definition quadrants : list (ImageRegion 2) :=
  [box 0 0 5 5; box 5 0 5 5; box 0 5 5 5; box 5 5 5 5].

Definition inputs : nat → option nat :=
  λ k, match k with 0%nat => Some 0%nat | 1%nat => Some 1%nat | _ => None end.

(** Pixel containers: 0 holds zeros, 1 holds ones, 3 holds at the cell
    (x, y) the value x + 100 y, any other one holds whatever was there
    (here 7). *)
Definition pixels : nat → vec Z 2 → Z :=
  λ b i, match b with
         | 0%nat => 0
         | 1%nat => 1
         | 3%nat => i !!! 0%fin + 100 * i !!! 1%fin
         | _ => 7
         end.

(** Every image object owns the container of its own number. *)
Definition separate : nat → ImageObject 2 :=
  λ p, match p with
       | 1%nat => mkImage 1 (box 0 0 4 4) (box 0 0 4 4)
       | 3%nat => mkImage 3 (box 0 0 12 12) (box 0 0 12 12)
       | _ => mkImage p whole whole
       end.

(** The output object shares the container of the destination. *)
Definition grafted : nat → ImageObject 2 :=
  λ p, match p with
       | 1%nat => mkImage 1 (box 0 0 4 4) (box 0 0 4 4)
       | 3%nat => mkImage 3 (box 0 0 12 12) (box 0 0 12 12)
       | _ => mkImage 0 whole whole
       end.

Definition world : World 2 Z := mkWorld separate pixels [] 0.
Definition worldInPlace : World 2 Z := mkWorld grafted pixels [] 0.

(** The filter as constructed, before any configuration. *)
Definition fresh : PasteImageFilter 2 :=
  PasteImageFilter_new (mkFilter zeroRegion (Fill 7) true 0 true (λ _, None) (Some 2%nat)).

Definition wired : PasteImageFilter 2 :=
  SetSourceImage (Some 1%nat) (SetDestinationImage (Some 0%nat) fresh).

(** Paste the whole source at (3,3), at (8,8) and at (0,0). *)
Definition pasteAt33 : PasteImageFilter 2 :=
  SetDestinationIndex [# 3; 3] (SetSourceRegion (box 0 0 4 4) wired).
Definition pasteAt88 : PasteImageFilter 2 :=
  SetDestinationIndex [# 8; 8] (SetSourceRegion (box 0 0 4 4) wired).
Definition pasteAtOrigin : PasteImageFilter 2 := SetSourceRegion (box 0 0 4 4) wired.

(** The same as [pasteAt33], set to run in place. *)
Definition pasteAt33InPlace : PasteImageFilter 2 :=
  mkFilter (box 0 0 4 4) [# 3; 3] true 2 true inputs (Some 2%nat).

(** Paste at (0,0) a region of the second source as large as the whole
    output. *)
Definition pasteAll : PasteImageFilter 2 :=
  SetSourceRegion (box 2 1 10 10) (SetSourceImage (Some 3%nat) wired).

(** A superclass step in the manner of an image-to-image filter: every
    input is asked for the requested region of the output. *)
Definition requestOutputRegion (this : PasteImageFilter 2) : M 2 Z unit :=
  match GetOutput this with
  | Some o =>
      r ← GetRequestedRegion o;
      match GetInput this with Some d => SetRequestedRegion d r | None => mret tt end;;
      match GetSourceImage this with Some s => SetRequestedRegion s r | None => mret tt end
  | None => mret tt
  end.

(** What a call left in the output buffer at a cell, if it completed. *)
Definition outputAt (r : Outcome 2 Z unit) (i : vec Z 2) : option Z :=
  match r with
  | Completed _ w => Some (heap w (bufferOf w 2%nat) i)
  | Failed _ => None
  end.

(** The failure a call ended with, if it did not complete. *)
Definition failureOf (r : Outcome 2 Z unit) : option Failure :=
  match r with
  | Completed _ _ => None
  | Failed e => Some e
  end.

(** The copy calls a call left in the log, if it completed. *)
Definition copiesOf (r : Outcome 2 Z unit) : option (list (CopyCall 2)) :=
  match r with
  | Completed _ w => Some (copies w)
  | Failed _ => None
  end.

End Scenario.

(** ** GaussianDerivativeImageFunction: the members its header defines

    [itkGaussianDerivativeImageFunction.h] defines in line the accessors of
    the sigma and extent arrays and [SetUseImageSpacing]; everything else is
    declared only. *)

(** The members of the class.  [Real] stands for [double], whose values are
    only stored here; [Kernels] stands for the operator array and the two
    function objects, which only code outside the header reads or writes. *)
Record GaussianDerivativeImageFunction (n : nat) (Real Kernels : Type) : Type :=
  mkGaussian {
    m_Sigma : vec Real n;
    m_OperatorArray : Kernels;
    m_Extent : vec Real n;
    m_UseImageSpacing : bool
  }.
Arguments mkGaussian {n Real Kernels} _ _ _ _.
Arguments m_Sigma {n Real Kernels} _.
Arguments m_OperatorArray {n Real Kernels} _.
Arguments m_Extent {n Real Kernels} _.
Arguments m_UseImageSpacing {n Real Kernels} _.

Section GaussianDerivative.
Context {n : nat} {Real Kernels : Type}.
Implicit Types this : GaussianDerivativeImageFunction n Real Kernels.

(** [RecomputeGaussianKernel], declared at line 148; its code is not part of
    the sources at hand. *)
Variable RecomputeGaussianKernel :
  GaussianDerivativeImageFunction n Real Kernels →
  GaussianDerivativeImageFunction n Real Kernels.

(** Lines 101-108. *)
Definition SetUseImageSpacing (val : bool) this
    : GaussianDerivativeImageFunction n Real Kernels :=
  if negb (eqb val (m_UseImageSpacing this))
  then RecomputeGaussianKernel
         (mkGaussian (m_Sigma this) (m_OperatorArray this) (m_Extent this) val)
  else this.

(** [itkGetMacro(UseImageSpacing, bool)] (line 110): the member, read. *)
Definition GetUseImageSpacing this : bool := m_UseImageSpacing this.

(** Lines 121 and 128. *)
Definition GetSigma this : vec Real n := m_Sigma this.
Definition GetExtent this : vec Real n := m_Extent this.

End GaussianDerivative.

(** A kernel recomputation that can be counted: the kernels are the number
    of times they were recomputed. *)
Definition countRecomputation (this : GaussianDerivativeImageFunction 2 Z nat)
    : GaussianDerivativeImageFunction 2 Z nat :=
  mkGaussian (m_Sigma this) (S (m_OperatorArray this)) (m_Extent this)
             (m_UseImageSpacing this).

(** ** ComplexToModulus: the functor of the modulus filter *)

(** A complex value, read with [real()] and [imag()]. *)
Record Complex (T : Type) : Type := mkComplex { real : T; imag : T }.
Arguments mkComplex {T} _ _.
Arguments real {T} _.
Arguments imag {T} _.

Section ComplexToModulus.
Context {TValue TOutput : Type}.

(** The arithmetic of the value type of the input pixels, [std::sqrt] and
    the conversion to the output pixel type; they belong to the language and
    its library and are parameters here. *)
Variables (mul add : TValue → TValue → TValue) (sqrt : TValue → TValue)
          (cast : TValue → TOutput).

(** [operator()] (lines 50-54). *)
Definition ComplexToModulus_call (A : Complex TValue) : TOutput :=
  cast (sqrt (add (mul (real A) (real A)) (mul (imag A) (imag A)))).

End ComplexToModulus.

(** The world of the scene after the superclass step
    [Scenario.requestOutputRegion]: destination and source are asked for the
    whole requested region of the output. *)
Definition sceneAfterSuperclass : World 2 Z :=
  mkWorld (<[1%nat := mkImage 1 (Scenario.box 0 0 4 4) Scenario.whole]>
             (<[0%nat := mkImage 0 Scenario.whole Scenario.whole]> Scenario.separate))
          Scenario.pixels [] 0.

(** ** Facts about regions *)

Section RegionFacts.
Context {n : nat}.
Implicit Types (a b c r : ImageRegion n) (i j k o s : vec Z n) (d : fin n).

Lemma index_add_lookup i o d : index_add i o !!! d = i !!! d + o !!! d.
Proof. unfold index_add. by rewrite vlookup_zip_with. Qed.

Lemma index_sub_lookup i j d : index_sub i j !!! d = i !!! d - j !!! d.
Proof. unfold index_sub. by rewrite vlookup_zip_with. Qed.

(** Reading back through a copy whose input region is the output region
    moved by [o] reads the input at the cell moved by [o]. *)
Lemma index_shift_cancel k o i :
  index_add (index_add k o) (index_sub i k) = index_add i o.
Proof.
  apply vec_eq; intros d.
  rewrite !index_add_lookup, index_sub_lookup. lia.
Qed.

Lemma index_same_cancel k i : index_add k (index_sub i k) = i.
Proof.
  apply vec_eq; intros d. rewrite index_add_lookup, index_sub_lookup. lia.
Qed.

Lemma index_add_sub_assoc s k j :
  index_add (index_add k (index_sub j s)) (index_sub s k) = j.
Proof.
  apply vec_eq; intros d.
  rewrite !index_add_lookup, !index_sub_lookup. lia.
Qed.

(** Values within the range of the index type are left alone by [wrap]. *)
Lemma wrap_exact bits (z : Z) :
  - 2 ^ (Z.pos bits - 1) ≤ z < 2 ^ (Z.pos bits - 1) → wrap bits z = z.
Proof.
  intros H. unfold wrap.
  assert (Hpow : 2 ^ Z.pos bits = 2 * 2 ^ (Z.pos bits - 1)).
  { rewrite <- Z.pow_succ_r by lia. f_equal. lia. }
  rewrite Z.mod_small by lia. lia.
Qed.

(** Wrapping an intermediate result does not change the wrapped sum. *)
Lemma wrap_add_wrap bits (x y : Z) : wrap bits (x + wrap bits y) = wrap bits (x + y).
Proof.
  unfold wrap. f_equal.
  replace (x + ((y + 2 ^ (Z.pos bits - 1)) mod 2 ^ Z.pos bits - 2 ^ (Z.pos bits - 1))
           + 2 ^ (Z.pos bits - 1))
    with (x + (y + 2 ^ (Z.pos bits - 1)) mod 2 ^ Z.pos bits) by lia.
  rewrite Zplus_mod_idemp_r. f_equal. lia.
Qed.

(** Lines 164 and 168 together: when the exact result is an index the
    machine can hold, the machine computes it, whether or not the
    intermediate offset wrapped around. *)
Lemma Index_plus_minus_exact bits k s j :
  (∀ d, - 2 ^ (Z.pos bits - 1) ≤ k !!! d + (s !!! d - j !!! d) < 2 ^ (Z.pos bits - 1)) →
  Index_operator_plus bits k (Index_operator_minus bits s j)
  = index_add k (index_sub s j).
Proof.
  intros H. apply vec_eq; intros d.
  unfold Index_operator_plus, Index_operator_minus, index_add, index_sub.
  rewrite !vlookup_zip_with, wrap_add_wrap. apply wrap_exact, H.
Qed.

Lemma crop_None a b : crop a b = None ↔ ∃ d, overlapLength a b d ≤ 0.
Proof.
  unfold crop. destruct (decide (∃ d, overlapLength a b d ≤ 0)) as [Hex|Hno].
  - split; [intros _; exact Hex | reflexivity].
  - split; [discriminate | intros H; destruct (Hno H)].
Qed.

Lemma crop_Some a b c :
  crop a b = Some c →
  (∀ d, 0 < overlapLength a b d)
  ∧ (∀ d, GetIndex c !!! d = Z.max (GetIndex a !!! d) (GetIndex b !!! d))
  ∧ (∀ d, upper c d = Z.min (upper a d) (upper b d)).
Proof.
  unfold crop. case_decide as Hex; [discriminate|]. intros [= <-].
  assert (Hpos : ∀ d, 0 < overlapLength a b d).
  { intros d. destruct (decide (0 < overlapLength a b d)); [done|].
    exfalso. apply Hex. exists d. lia. }
  split; [done|]. split; intros d.
  - simpl. by rewrite lookup_fun_to_vec.
  - unfold upper at 1. simpl. rewrite !lookup_fun_to_vec.
    specialize (Hpos d). unfold overlapLength in Hpos. lia.
Qed.

(** The cropped region holds exactly the cells common to both regions. *)
Lemma crop_Some_inside a b c i :
  crop a b = Some c → IsInside c i ↔ IsInside a i ∧ IsInside b i.
Proof.
  intros (Hpos & Hidx & Hup)%crop_Some. unfold IsInside. split.
  - intros H. split; intros d; specialize (H d);
      rewrite Hidx, Hup in H; lia.
  - intros [Ha Hb] d. rewrite Hidx, Hup.
    specialize (Ha d). specialize (Hb d). lia.
Qed.

(** Regions that crop to nothing share no cell. *)
Lemma crop_None_outside a b i :
  crop a b = None → IsInside a i → IsInside b i → False.
Proof.
  intros [d Hd]%crop_None Ha Hb. specialize (Ha d). specialize (Hb d).
  unfold overlapLength in Hd. lia.
Qed.

(** A cropped region is never empty: it holds its own origin. *)
Lemma crop_Some_origin a b c : crop a b = Some c → IsInside c (GetIndex c).
Proof.
  intros (Hpos & Hidx & Hup)%crop_Some d. rewrite Hup, Hidx.
  specialize (Hpos d). unfold overlapLength in Hpos. lia.
Qed.

(** Regions with a common cell crop to some region. *)
Lemma crop_is_Some a b i :
  IsInside a i → IsInside b i → is_Some (crop a b).
Proof.
  intros Ha Hb. destruct (crop a b) eqn:E; [by eexists|].
  destruct (crop_None_outside a b i E Ha Hb).
Qed.

(** The running check of disjointness is sound. *)
Lemma pairwiseDisjointb_sound (ps : list (ImageRegion n)) :
  pairwiseDisjointb ps = true → PairwiseDisjoint ps.
Proof.
  induction ps as [|p0 ps IH]; intros Hb j k p q Hj Hk Hjk i Hp Hq.
  - by rewrite lookup_nil in Hj.
  - cbn [pairwiseDisjointb] in Hb. apply andb_prop in Hb as [Hhd Htl].
    rewrite forallb_forall in Hhd.
    assert (Hhead : ∀ q', q' ∈ ps → IsInside p0 i → IsInside q' i → False).
    { intros q' Hin. specialize (Hhd q'). rewrite <- list_elem_of_In in Hhd.
      specialize (Hhd Hin). apply bool_decide_eq_true in Hhd.
      by apply crop_None_outside. }
    destruct j as [|j], k as [|k]; cbn in Hj, Hk.
    + done.
    + injection Hj as ->.
      apply (Hhead q); [by eapply list_elem_of_lookup_2 | done | done].
    + injection Hk as ->.
      apply (Hhead p); [by eapply list_elem_of_lookup_2 | done | done].
    + eapply (IH Htl j k p q); eauto.
Qed.

(** A region with a zero size component holds no cell. *)
Lemma zero_size_empty r d i : GetSize r !!! d = 0%N → ¬ IsInside r i.
Proof. intros Hz H. specialize (H d). unfold upper in H. rewrite Hz in H. lia. Qed.

End RegionFacts.

(** In one or more dimensions, the region with zero index and zero size is
    empty. *)
Lemma zero_region_empty {n} (i : vec Z (S n)) :
  ¬ IsInside (mkRegion (Fill 0) (vreplicate (S n) 0%N)) i.
Proof. apply (zero_size_empty _ 0%fin). reflexivity. Qed.

(** Membership in a two-dimensional region, written out. *)
Lemma IsInside_2d (x y : Z) (sx sy : N) (a b : Z) :
  IsInside (mkRegion [# x; y] [# sx; sy]) [# a; b]
  ↔ (x ≤ a < x + Z.of_N sx) ∧ (y ≤ b < y + Z.of_N sy).
Proof.
  unfold IsInside. split.
  - intros H. split; [apply (H 0%fin) | apply (H 1%fin)].
  - intros [H0 H1] d. inv_fin d; [exact H0|].
    intros d. inv_fin d; [exact H1|]. intros d. inv_fin d.
Qed.

(** The source regions of the scene can be held by 64-bit indices. *)
Lemma source_4x4_representable :
  representableRegion Scenario.bits (Scenario.box 0 0 4 4).
Proof.
  apply (bool_decide_eq_true_1
           (representableRegion Scenario.bits (Scenario.box 0 0 4 4))).
  vm_compute. reflexivity.
Qed.

Lemma source_10x10_representable :
  representableRegion Scenario.bits (Scenario.box 2 1 10 10).
Proof.
  apply (bool_decide_eq_true_1
           (representableRegion Scenario.bits (Scenario.box 2 1 10 10))).
  vm_compute. reflexivity.
Qed.

(** ** Crop correctness *)

Example crop_2d :
  crop (mkRegion [# 3; 3] [# 4%N; 4%N]) (mkRegion [# 5; 0] [# 5%N; 5%N])
  = Some (mkRegion [# 5; 3] [# 2%N; 2%N]).
Proof. vm_compute. reflexivity. Qed.

Example crop_2d_none :
  crop (mkRegion [# 3; 3] [# 4%N; 4%N]) (mkRegion [# 0; 7] [# 5%N; 3%N]) = None.
Proof. vm_compute. reflexivity. Qed.

(** C2 (crop correctness).  For two regions of any dimension, [crop] gives
    no region exactly when along some dimension the overlap length, the
    least upper end minus the greatest origin, is at most zero.  Otherwise
    every overlap length is positive and [crop] gives the region whose
    origin is the per-dimension maximum of the two origins and whose size
    is the least upper end minus that origin; this region holds exactly the
    cells the two regions share.  [crop] is a function of its two arguments
    and nothing else. *)
Theorem crop_correct {n} (a b : ImageRegion n) :
  (crop a b = None
   ↔ ∃ d, Z.min (GetIndex a !!! d + Z.of_N (GetSize a !!! d))
                (GetIndex b !!! d + Z.of_N (GetSize b !!! d))
          - Z.max (GetIndex a !!! d) (GetIndex b !!! d) ≤ 0)
  ∧ match crop a b with
    | None => True
    | Some c =>
        (∀ d, GetIndex c !!! d = Z.max (GetIndex a !!! d) (GetIndex b !!! d))
        ∧ (∀ d, Z.of_N (GetSize c !!! d)
                = Z.min (GetIndex a !!! d + Z.of_N (GetSize a !!! d))
                        (GetIndex b !!! d + Z.of_N (GetSize b !!! d))
                  - GetIndex c !!! d)
        ∧ (∀ i, IsInside c i ↔ IsInside a i ∧ IsInside b i)
    end.
Proof.
  split; [apply crop_None|].
  destruct (crop a b) as [c|] eqn:Hcrop; [|done].
  pose proof (crop_Some _ _ _ Hcrop) as (Hpos & Hidx & Hup).
  split; [done|]. split.
  - intros d. specialize (Hup d). unfold upper in Hup. lia.
  - intros i. by apply crop_Some_inside.
Qed.

(** ** What one thread, and a sequence of threads, leave in the output *)

Section Compositing.
Context {n : nat} {Pixel : Type}.
Variable bits : positive.
Variable defaultRegion : ImageRegion n.
Variable this : PasteImageFilter n.
Variables dest source output : nat.
Implicit Types (w : World n Pixel) (p c r rin rout : ImageRegion n) (i : vec Z n).

Local Abbreviation placement := (sourceRegionInDestinationImage this).
Local Abbreviation shift := (delta this).
Local Abbreviation cell := (pasteCell this dest source output).
Local Abbreviation run :=
  (ThreadedGenerateData (Pixel := Pixel) bits defaultRegion this).

Lemma bind_run {A B} (m : M n Pixel A) (k : A → M n Pixel B) w :
  (m ≫= k) w = match m w with Completed a w' => k a w' | Failed e => Failed e end.
Proof. reflexivity. Qed.

Lemma copyBetween_run a b rin rout w :
  copyBetween a b rin rout w
  = Completed tt
      (mkWorld (objects w)
         (<[bufferOf w b := copyPixels (heap w (bufferOf w a)) (heap w (bufferOf w b))
                                       rin rout]> (heap w))
         (copies w ++ [mkCopyCall a b rin rout]) (progress w)).
Proof. reflexivity. Qed.

Lemma Copy_run a b rin rout :
  ImageAlgorithm_Copy (Pixel := Pixel) (Some a) (Some b) rin rout
  = copyBetween a b rin rout.
Proof. reflexivity. Qed.

(** Copying onto a region that holds no cell changes no pixel. *)
Lemma copyPixels_empty (input out : vec Z n → Pixel) rin rout :
  (∀ i, ¬ IsInside rout i) → ∀ i, copyPixels input out rin rout i = out i.
Proof. intros H i. unfold copyPixels. by rewrite bool_decide_eq_false_2. Qed.

(** *** The three branches of the case split (lines 189-230) *)

Lemma run_no_overlap_copy p tid :
  crop placement p = None → runsInPlace this = false →
  run p tid
  = (ImageAlgorithm_Copy (GetInput this) (GetOutput this) p p;; CompletedPixel).
Proof. intros Hc Hin. unfold ThreadedGenerateData. by rewrite Hc, Hin. Qed.

Lemma run_no_overlap_in_place p tid :
  crop placement p = None → runsInPlace this = true →
  run p tid
  = (mret tt;;
     ImageAlgorithm_Copy (GetSourceImage this) (GetOutput this)
                         defaultRegion defaultRegion;;
     CompletedPixel).
Proof. intros Hc Hin. unfold ThreadedGenerateData. by rewrite Hc, Hin. Qed.

Hypothesis source_representable : representableRegion bits (m_SourceRegion this).

(** The index computed at lines 164-168 is the origin of the cropped region
    moved by [delta]. *)
Lemma sourceIndexInSourceImageCropped_exact p c :
  crop placement p = Some c →
  Index_operator_plus bits (GetIndex c)
    (Index_operator_minus bits (GetIndex (m_SourceRegion this)) (m_DestinationIndex this))
  = index_add (GetIndex c) shift.
Proof.
  intros Hc. apply Index_plus_minus_exact. intros d.
  destruct (crop_Some _ _ _ Hc) as (_ & Hidx & Hup).
  pose proof (crop_Some_origin _ _ _ Hc d) as Ho.
  specialize (Hidx d). specialize (Hup d). specialize (source_representable d).
  unfold upper, sourceRegionInDestinationImage in *. cbn [GetIndex GetSize] in *.
  lia.
Qed.

Lemma run_full_overlap p tid :
  crop placement p = Some p →
  run p tid
  = (ImageAlgorithm_Copy (GetSourceImage this) (GetOutput this) (translate p shift) p;;
     CompletedPixel).
Proof.
  intros Hc. unfold ThreadedGenerateData, equals. rewrite Hc.
  cbv zeta. rewrite (sourceIndexInSourceImageCropped_exact _ _ Hc).
  by rewrite bool_decide_eq_true_2.
Qed.

Lemma run_partial_overlap p c tid :
  crop placement p = Some c → c ≠ p →
  run p tid
  = ((if negb (runsInPlace this)
      then ImageAlgorithm_Copy (GetInput this) (GetOutput this) p p
      else mret tt);;
     ImageAlgorithm_Copy (GetSourceImage this) (GetOutput this) (translate c shift) c;;
     CompletedPixel).
Proof.
  intros Hc Hne. unfold ThreadedGenerateData, equals. rewrite Hc.
  cbv zeta. rewrite (sourceIndexInSourceImageCropped_exact _ _ Hc).
  by rewrite bool_decide_eq_false_2.
Qed.

Hypothesis defaultRegion_empty :
  runsInPlace this = true → ∀ i, ¬ IsInside defaultRegion i.
Hypothesis dest_set : GetInput this = Some dest.
Hypothesis source_set : GetSourceImage this = Some source.
Hypothesis output_set : GetOutput this = Some output.

(** One thread: it completes, touches no image object and no buffer but
    the output's, and in the output's buffer it rewrites exactly the cells
    of its region, each to its [pasteCell] value. *)
Lemma ThreadedGenerateData_cells w p tid :
  bufferOf w source ≠ bufferOf w output →
  ∃ w', run p tid w = Completed tt w'
        ∧ objects w' = objects w
        ∧ progress w' = S (progress w)
        ∧ (∀ b, b ≠ bufferOf w output → heap w' b = heap w b)
        ∧ (∀ i, heap w' (bufferOf w output) i
                = if bool_decide (IsInside p i) then cell w i
                  else heap w (bufferOf w output) i).
Proof.
  intros Hso. unfold ThreadedGenerateData.
  rewrite dest_set, source_set, output_set.
  destruct (crop placement p) as [c|] eqn:Hcrop;
    cbv zeta; rewrite ?(sourceIndexInSourceImageCropped_exact _ _ Hcrop);
    cbn [negb andb];
    destruct (runsInPlace this) eqn:Hin; cbn [negb andb].
  all: try (unfold equals; destruct (bool_decide (c = p)) eqn:Heq).
  all: rewrite ?bind_run, ?Copy_run, ?copyBetween_run; cbn [mret M_ret CompletedPixel].
  all: eexists; split; [reflexivity|]; cbn [objects progress heap copies].
  all: split; [reflexivity|]; split; [reflexivity|].
  all: unfold bufferOf in *; cbn [objects heap] in *.
  all: split; [intros b Hb; by rewrite ?fn_lookup_insert_ne by congruence|].
  all: intros i; pose proof (λ H, defaultRegion_empty H i) as Hdef.
  all: try apply bool_decide_eq_true in Heq; try subst c.
  all: try pose proof (crop_Some_inside _ _ _ i Hcrop) as Hc.
  all: try pose proof (crop_None_outside _ _ i Hcrop) as Hc.
  all: rewrite ?fn_lookup_insert.
  all: rewrite ?(fn_lookup_insert_ne _ _ (PixelContainer (objects w source)))
         by congruence.
  all: unfold copyPixels, pasteCell, bufferOf; rewrite Hin; cbn [GetIndex].
  all: repeat case_bool_decide;
         rewrite ?index_shift_cancel, ?index_same_cancel; try done; tauto.
Qed.

(** The [pasteCell] values do not change when a world is replaced by one
    in which only output cells were rewritten, each to its [pasteCell]
    value. *)
Lemma pasteCell_stable w w1 :
  bufferOf w source ≠ bufferOf w output →
  objects w1 = objects w →
  (∀ b, b ≠ bufferOf w output → heap w1 b = heap w b) →
  (∀ i, heap w1 (bufferOf w output) i = cell w i
        ∨ heap w1 (bufferOf w output) i = heap w (bufferOf w output) i) →
  ∀ i, cell w1 i = cell w i.
Proof.
  intros Hso Hobj Hother Hout i. unfold pasteCell, bufferOf in *.
  rewrite Hobj. rewrite (Hother _ Hso).
  case_bool_decide as Hpl; [done|].
  destruct (runsInPlace this) eqn:Hin.
  - destruct (Hout i) as [-> | ->]; [|done].
    by rewrite bool_decide_eq_false_2.
  - destruct (decide (PixelContainer (objects w dest)
                      = PixelContainer (objects w output))) as [Heq|Hne].
    + rewrite Heq. destruct (Hout i) as [-> | ->]; [|done].
      by rewrite bool_decide_eq_false_2, ?Heq.
    + by rewrite (Hother _ Hne).
Qed.

(** A sequence of threads: every covered cell of the output holds its
    [pasteCell] value of the initial world, every other cell is as it
    was, and no other buffer changed. *)
Lemma GenerateData_cells ps : ∀ tid w,
  bufferOf w source ≠ bufferOf w output →
  ∃ w', GenerateData bits defaultRegion this ps tid w = Completed tt w'
        ∧ objects w' = objects w
        ∧ progress w' = (length ps + progress w)%nat
        ∧ (∀ b, b ≠ bufferOf w output → heap w' b = heap w b)
        ∧ (∀ i, heap w' (bufferOf w output) i
                = if bool_decide (covered ps i) then cell w i
                  else heap w (bufferOf w output) i).
Proof.
  induction ps as [|p ps IH]; intros tid w Hso.
  - exists w. by repeat split.
  - destruct (ThreadedGenerateData_cells w p tid Hso)
      as (w1 & Hrun1 & Hobj1 & Hprog1 & Hother1 & Hout1).
    assert (Hbuf : ∀ x, bufferOf w1 x = bufferOf w x)
      by (intros x; unfold bufferOf; by rewrite Hobj1).
    destruct (IH (S tid) w1) as (w2 & Hrun2 & Hobj2 & Hprog2 & Hother2 & Hout2).
    { by rewrite !Hbuf. }
    exists w2. cbn [GenerateData]. rewrite bind_run, Hrun1.
    split; [done|]. split; [congruence|]. split; [cbn [length]; lia|].
    split.
    + intros b Hb. rewrite Hother2 by (by rewrite Hbuf). by apply Hother1.
    + intros i. rewrite Hbuf in Hout2. rewrite Hout2.
      assert (Hstable : cell w1 i = cell w i).
      { apply pasteCell_stable; try done. intros j. rewrite Hout1.
        case_bool_decide; auto. }
      rewrite Hstable, Hout1. unfold covered.
      repeat case_bool_decide; try done;
        exfalso; rewrite Exists_cons in *; tauto.
Qed.

(** The result of a sequence of threads depends on the partitions only
    through the set of cells they cover. *)
Lemma GenerateData_same_cover ps1 ps2 tid1 tid2 w :
  bufferOf w source ≠ bufferOf w output →
  (∀ i, covered ps1 i ↔ covered ps2 i) →
  ∃ w1 w2,
    GenerateData bits defaultRegion this ps1 tid1 w = Completed tt w1
    ∧ GenerateData bits defaultRegion this ps2 tid2 w = Completed tt w2
    ∧ ∀ b i, heap w1 b i = heap w2 b i.
Proof.
  intros Hso Hcov.
  destruct (GenerateData_cells ps1 tid1 w Hso) as (w1 & Hrun1 & _ & _ & Hoth1 & Hout1).
  destruct (GenerateData_cells ps2 tid2 w Hso) as (w2 & Hrun2 & _ & _ & Hoth2 & Hout2).
  exists w1, w2. split; [done|]. split; [done|]. intros b i.
  destruct (decide (b = bufferOf w output)) as [->|Hb].
  - rewrite Hout1, Hout2. by rewrite (bool_decide_ext _ _ (Hcov i)).
  - by rewrite (Hoth1 _ Hb), (Hoth2 _ Hb).
Qed.

End Compositing.

(** ** The scene, run *)

(** Pasting at (3,3): the cells with both coordinates in 3..6 hold the
    source value 1, the others the destination value 0, whether the output
    is produced as one partition or as four quadrants. *)
Example scene_single_partition :
  map (Scenario.outputAt
         (GenerateData Scenario.bits Scenario.zeroRegion Scenario.pasteAt33
            [Scenario.whole] 0 Scenario.world))
      [[# 3; 3]; [# 6; 6]; [# 3; 6]; [# 2; 3]; [# 7; 6]; [# 0; 0]; [# 9; 9]]
  = [Some 1; Some 1; Some 1; Some 0; Some 0; Some 0; Some 0].
Proof. vm_compute. reflexivity. Qed.

Example scene_quadrants :
  map (Scenario.outputAt
         (GenerateData Scenario.bits Scenario.zeroRegion Scenario.pasteAt33
            Scenario.quadrants 0 Scenario.world))
      [[# 3; 3]; [# 6; 6]; [# 3; 6]; [# 2; 3]; [# 7; 6]; [# 0; 0]; [# 9; 9]]
  = [Some 1; Some 1; Some 1; Some 0; Some 0; Some 0; Some 0].
Proof. vm_compute. reflexivity. Qed.

(** A cell outside the requested region keeps what the output buffer held. *)
Example scene_outside_untouched :
  Scenario.outputAt
    (GenerateData Scenario.bits Scenario.zeroRegion Scenario.pasteAt33
       Scenario.quadrants 0 Scenario.world) [# 10; 3] = Some 7.
Proof. vm_compute. reflexivity. Qed.

(** A null destination pointer makes the thread of a partition that the
    paste region does not cover fail. *)
Example scene_null_destination :
  Scenario.failureOf
    (ThreadedGenerateData Scenario.bits Scenario.zeroRegion
       (SetDestinationImage None Scenario.pasteAt33) (Scenario.box 0 0 2 2) 0
       Scenario.world) = Some NullDereference.
Proof. vm_compute. reflexivity. Qed.

(** The index arithmetic wraps around at 64 bits. *)
Example wrap_64 :
  wrap 64 (2 ^ 63) = - 2 ^ 63 ∧ wrap 64 (- 2 ^ 63 - 1) = 2 ^ 63 - 1 ∧ wrap 64 5 = 5.
Proof. by vm_compute. Qed.

(** Runs the monadic code of a branch down to the world it produces. *)
Ltac run_M :=
  cbv [mbind M_bind mret M_ret ImageAlgorithm_Copy deref raise copyBetween
       CompletedPixel].

(** ** Partition invariance *)

(** C1 (partition invariance).  Fix the placement (destination index and
    source region) and the wiring of the filter.  For any two coverings of
    the same requested region into pairwise disjoint partitions, running the
    per-thread routine once per partition, in the order of either list,
    completes and leaves identical pixel buffers: the result does not depend
    on the number, the shape or the order of the partitions.  The source
    image does not share its pixel container with the output, and the source
    region is representable in the index type; when the filter runs in
    place, a default-constructed region is empty. *)
Theorem partition_invariance {n Pixel} (bits : positive)
    (defaultRegion : ImageRegion n)
    (this : PasteImageFilter n) (dest source output : nat) (w : World n Pixel)
    (requested : ImageRegion n) (ps1 ps2 : list (ImageRegion n)) (tid1 tid2 : nat) :
  (runsInPlace this = true → ∀ i, ¬ IsInside defaultRegion i) →
  GetInput this = Some dest →
  GetSourceImage this = Some source →
  GetOutput this = Some output →
  representableRegion bits (m_SourceRegion this) →
  bufferOf w source ≠ bufferOf w output →
  Covering requested ps1 →
  Covering requested ps2 →
  ∃ w1 w2,
    GenerateData bits defaultRegion this ps1 tid1 w = Completed tt w1
    ∧ GenerateData bits defaultRegion this ps2 tid2 w = Completed tt w2
    ∧ ∀ b i, heap w1 b i = heap w2 b i.
Proof.
  intros Hdef Hd Hs Ho Hrep Hso [Hcov1 _] [Hcov2 _].
  apply (GenerateData_same_cover bits defaultRegion this dest source output
           Hrep Hdef Hd Hs Ho); [done|].
  intros i. by rewrite <- Hcov1, <- Hcov2.
Qed.

(** The two coverings of the scene: the whole region as one partition, and
    its four quadrants. *)
Lemma whole_covering : Covering Scenario.whole [Scenario.whole].
Proof.
  split; [|by apply pairwiseDisjointb_sound].
  intros i. unfold covered. rewrite Exists_cons, Exists_nil. tauto.
Qed.

Lemma quadrants_covering : Covering Scenario.whole Scenario.quadrants.
Proof.
  split; [|by apply pairwiseDisjointb_sound].
  intros i. inv_vec i; intros x y.
  unfold covered, Scenario.quadrants, Scenario.whole, Scenario.box.
  rewrite !Exists_cons, Exists_nil, !IsInside_2d. lia.
Qed.

Lemma partition_invariance_witness :
  ∃ w1 w2,
    GenerateData Scenario.bits Scenario.zeroRegion Scenario.pasteAt33InPlace
                 [Scenario.whole] 0 Scenario.worldInPlace = Completed tt w1
    ∧ GenerateData Scenario.bits Scenario.zeroRegion Scenario.pasteAt33InPlace
                   Scenario.quadrants 0 Scenario.worldInPlace = Completed tt w2
    ∧ ∀ b i, heap w1 b i = heap w2 b i.
Proof.
  apply (partition_invariance Scenario.bits Scenario.zeroRegion
           Scenario.pasteAt33InPlace 0 1 2 Scenario.worldInPlace Scenario.whole).
  - intros _. apply zero_region_empty.
  - reflexivity.
  - reflexivity.
  - reflexivity.
  - apply source_4x4_representable.
  - vm_compute. discriminate.
  - apply whole_covering.
  - apply quadrants_covering.
Defined.

(** ** Full overlap *)

(** C3 (full overlap, pure overwrite).  When the paste region cropped by a
    partition is the partition itself, the thread issues exactly one copy,
    from the source image over the partition moved by the offset
    [m_SourceRegion.GetIndex() - m_DestinationIndex] onto the partition: no
    copy reads the destination, and every cell of the partition receives the
    source cell shifted by that offset.  In particular, when the paste
    region is the requested region, after the threads of any covering every
    cell of the requested region holds the shifted source cell.  The source
    region is representable in the index type. *)
Theorem full_overlap_pure_overwrite {n Pixel} (bits : positive)
    (defaultRegion : ImageRegion n)
    (this : PasteImageFilter n) (source output : nat) (w : World n Pixel) :
  GetSourceImage this = Some source →
  GetOutput this = Some output →
  representableRegion bits (m_SourceRegion this) →
  (∀ p tid,
      crop (sourceRegionInDestinationImage this) p = Some p →
      ∃ w', ThreadedGenerateData bits defaultRegion this p tid w = Completed tt w'
            ∧ copies w'
              = copies w
                ++ [mkCopyCall source output
                      (translate p (delta this)) p]
            ∧ ∀ i, IsInside p i →
                   heap w' (bufferOf w' output) i
                   = heap w (bufferOf w source)
                       (index_add i (delta this)))
  ∧ (∀ dest requested ps tid,
      (runsInPlace this = true → ∀ i, ¬ IsInside defaultRegion i) →
      GetInput this = Some dest →
      bufferOf w source ≠ bufferOf w output →
      sourceRegionInDestinationImage this = requested →
      Covering requested ps →
      ∃ w', GenerateData bits defaultRegion this ps tid w = Completed tt w'
            ∧ ∀ i, IsInside requested i →
                   heap w' (bufferOf w' output) i
                   = heap w (bufferOf w source)
                       (index_add i (delta this))).
Proof.
  intros Hs Ho Hrep. split.
  - intros p tid Hcrop. rewrite (run_full_overlap _ _ _ Hrep _ _ Hcrop), Hs, Ho.
    rewrite bind_run, Copy_run, copyBetween_run. cbn [CompletedPixel].
    eexists. split; [reflexivity|]. cbn [copies heap]. split; [reflexivity|].
    intros i Hi. unfold bufferOf at 1. cbn [objects].
    fold (bufferOf w output). rewrite fn_lookup_insert.
    unfold copyPixels, translate. cbn [GetIndex].
    by rewrite bool_decide_eq_true_2, index_shift_cancel.
  - intros dest requested ps tid Hdef Hd Hso <- [Hcov _].
    destruct (GenerateData_cells bits defaultRegion this dest source output
                Hrep Hdef Hd Hs Ho ps tid w Hso) as (w' & Hrun & Hobj & _ & _ & Hout).
    exists w'. split; [done|]. intros i Hi.
    replace (bufferOf w' output) with (bufferOf w output)
      by (unfold bufferOf; by rewrite Hobj).
    rewrite Hout, bool_decide_eq_true_2 by (by apply Hcov).
    unfold pasteCell. by rewrite bool_decide_eq_true_2.
Qed.

Lemma full_overlap_pure_overwrite_witness :
  (∃ w', ThreadedGenerateData Scenario.bits Scenario.zeroRegion Scenario.pasteAll
           (Scenario.box 5 0 5 5) 1 Scenario.world = Completed tt w'
         ∧ copies w'
           = [mkCopyCall 3 2 (Scenario.box 7 1 5 5) (Scenario.box 5 0 5 5)]
         ∧ ∀ i, IsInside (Scenario.box 5 0 5 5) i →
                heap w' (bufferOf w' 2) i
                = Scenario.pixels 3 (index_add i [# 2; 1]))
  ∧ (∃ w', GenerateData Scenario.bits Scenario.zeroRegion Scenario.pasteAll
             Scenario.quadrants 0 Scenario.world = Completed tt w'
           ∧ ∀ i, IsInside Scenario.whole i →
                  heap w' (bufferOf w' 2) i
                  = Scenario.pixels 3 (index_add i [# 2; 1])).
Proof.
  destruct (full_overlap_pure_overwrite Scenario.bits Scenario.zeroRegion
              Scenario.pasteAll 3 2 Scenario.world eq_refl eq_refl
              source_10x10_representable) as [Hone Hall].
  split.
  - apply (Hone (Scenario.box 5 0 5 5) 1%nat). vm_compute. reflexivity.
  - apply (Hall 0%nat Scenario.whole Scenario.quadrants 0%nat).
    + intros _. apply zero_region_empty.
    + reflexivity.
    + vm_compute. discriminate.
    + reflexivity.
    + apply quadrants_covering.
Defined.

(** ** No overlap, in place *)

(** What the code does for a partition that the paste region does not
    reach, with the filter running in place.  The thread copies nothing from
    the destination; the guard of line 189 being false, it falls through to
    the last branch of the case split, written for a partial overlap, and
    there issues the source copy of line 227 over the two regions that are
    only assigned when the source is used and so are still as
    default-constructed.  These being empty, no pixel of any buffer changes,
    and the output, which shares the pixel container of the destination,
    holds over the partition what the destination held before the call. *)
Theorem in_place_no_overlap_moves_no_pixel {n Pixel} (bits : positive)
    (defaultRegion : ImageRegion n) (this : PasteImageFilter n) (dest source output : nat) (w : World n Pixel)
    (p : ImageRegion n) (tid : nat) :
  (∀ i, ¬ IsInside defaultRegion i) →
  GetSourceImage this = Some source →
  GetOutput this = Some output →
  bufferOf w output = bufferOf w dest →
  crop (sourceRegionInDestinationImage this) p = None →
  runsInPlace this = true →
  ∃ w', ThreadedGenerateData bits defaultRegion this p tid w = Completed tt w'
        ∧ copies w' = copies w ++ [mkCopyCall source output defaultRegion defaultRegion]
        ∧ (∀ b i, heap w' b i = heap w b i)
        ∧ (∀ i, heap w' (bufferOf w' output) i = heap w (bufferOf w dest) i).
Proof.
  intros Hdef Hs Ho Halias Hcrop Hin.
  rewrite (run_no_overlap_in_place _ _ _ _ _ Hcrop Hin), Hs, Ho. run_M.
  eexists. split; [reflexivity|].
  unfold bufferOf in *; cbn [objects heap copies progress].
  split; [reflexivity|].
  set (out := PixelContainer (objects w output)) in *.
  assert (Hsame : ∀ b i,
    <[out := copyPixels (heap w (PixelContainer (objects w source))) (heap w out)
                        defaultRegion defaultRegion]> (heap w) b i = heap w b i).
  { intros b i. destruct (decide (out = b)) as [<-|Hne].
    - rewrite fn_lookup_insert. by apply copyPixels_empty.
    - by rewrite fn_lookup_insert_ne. }
  split; [exact Hsame|].
  intros i. by rewrite Hsame, Halias.
Qed.

Lemma in_place_no_overlap_moves_no_pixel_witness :
  ∃ w', ThreadedGenerateData Scenario.bits Scenario.zeroRegion Scenario.pasteAt33InPlace
          (Scenario.box 0 0 2 2) 0 Scenario.worldInPlace = Completed tt w'
        ∧ copies w'
          = copies Scenario.worldInPlace
            ++ [mkCopyCall 1 2 Scenario.zeroRegion Scenario.zeroRegion]
        ∧ (∀ b i, heap w' b i = heap Scenario.worldInPlace b i)
        ∧ (∀ i, heap w' (bufferOf w' 2) i
                = heap Scenario.worldInPlace (bufferOf Scenario.worldInPlace 0) i).
Proof.
  apply (in_place_no_overlap_moves_no_pixel Scenario.bits Scenario.zeroRegion
           Scenario.pasteAt33InPlace 0 1 2 Scenario.worldInPlace
           (Scenario.box 0 0 2 2) 0).
  - apply zero_region_empty.
  - reflexivity.
  - reflexivity.
  - reflexivity.
  - vm_compute. reflexivity.
  - reflexivity.
Defined.

(** C4 (in-place no-op check), where the code departs from it.  For a
    partition without overlap and with in-place execution the routine is to
    issue no copy call.  In the scene, run in place, the thread of the
    partition [(0,0)+(2,2)], which the paste region [(3,3)+(4,4)] does not
    reach, starts from an empty log of copy calls and leaves one call in
    it: the source copy of line 227, from image 1 onto image 2, over two
    default-constructed regions. *)
Lemma in_place_no_overlap_issues_copy :
  crop (sourceRegionInDestinationImage Scenario.pasteAt33InPlace)
       (Scenario.box 0 0 2 2) = None
  ∧ runsInPlace Scenario.pasteAt33InPlace = true
  ∧ copies Scenario.worldInPlace = []
  ∧ Scenario.copiesOf
      (ThreadedGenerateData Scenario.bits Scenario.zeroRegion Scenario.pasteAt33InPlace
         (Scenario.box 0 0 2 2) 0 Scenario.worldInPlace)
    = Some [mkCopyCall 1 2 Scenario.zeroRegion Scenario.zeroRegion].
Proof. repeat split; by vm_compute. Qed.

(** The stray call uses the source pointer.  With no source image attached,
    the thread of that partition fails when the filter runs in place, while
    out of place, where lines 189-197 handle the same partition, it
    completes. *)
Example in_place_no_overlap_uses_source_pointer :
  Scenario.failureOf
    (ThreadedGenerateData Scenario.bits Scenario.zeroRegion
       (SetSourceImage None Scenario.pasteAt33InPlace) (Scenario.box 0 0 2 2) 0
       Scenario.worldInPlace) = Some NullDereference
  ∧ Scenario.failureOf
      (ThreadedGenerateData Scenario.bits Scenario.zeroRegion
         (SetSourceImage None Scenario.pasteAt33) (Scenario.box 0 0 2 2) 0
         Scenario.world) = None.
Proof. split; by vm_compute. Qed.

(** ** Partial overlap *)

(** C5 (partial overlap, order of the steps).  When the paste region
    cropped by a partition is some region other than the partition, the
    thread first lays the background over the whole partition, by copying
    the destination onto the output over the partition when the filter does
    not run in place and by doing nothing when it does; it then always
    copies the source, over the cropped region moved by the offset, onto the
    cropped region of the output.  So the cropped region holds the shifted
    source cells, and the rest of the partition the destination, or, in
    place, what the shared buffer already held.  The source region is
    representable in the index type and the source image does not share its
    pixel container with the output. *)
Theorem partial_overlap_step_order {n Pixel} (bits : positive)
    (defaultRegion : ImageRegion n)
    (this : PasteImageFilter n) (dest source output : nat) (w : World n Pixel)
    (p c : ImageRegion n) (tid : nat) :
  GetInput this = Some dest →
  GetSourceImage this = Some source →
  GetOutput this = Some output →
  representableRegion bits (m_SourceRegion this) →
  bufferOf w source ≠ bufferOf w output →
  crop (sourceRegionInDestinationImage this) p = Some c →
  c ≠ p →
  ∃ w', ThreadedGenerateData bits defaultRegion this p tid w = Completed tt w'
        ∧ ThreadedGenerateData bits defaultRegion this p tid w
          = ((if runsInPlace this then mret tt else copyBetween dest output p p);;
             copyBetween source output
               (translate c (delta this)) c;;
             CompletedPixel) w
        ∧ copies w'
          = copies w
            ++ (if runsInPlace this then [] else [mkCopyCall dest output p p])
            ++ [mkCopyCall source output
                  (translate c (delta this)) c]
        ∧ (∀ i, IsInside c i →
                heap w' (bufferOf w' output) i
                = heap w (bufferOf w source)
                    (index_add i (delta this)))
        ∧ (∀ i, IsInside p i → ¬ IsInside c i →
                heap w' (bufferOf w' output) i
                = if runsInPlace this then heap w (bufferOf w output) i
                  else heap w (bufferOf w dest) i).
Proof.
  intros Hd Hs Ho Hrep Hso Hcrop Hne.
  rewrite (run_partial_overlap _ _ _ Hrep _ _ _ Hcrop Hne), Hd, Hs, Ho.
  destruct (runsInPlace this) eqn:Hin; cbn [negb].
  all: run_M.
  all: eexists; split; [reflexivity|]; split; [reflexivity|].
  all: cbn [copies heap objects]; unfold bufferOf; cbn [objects heap].
  all: split; [by rewrite <- ?app_assoc|].
  all: rewrite ?fn_lookup_insert.
  all: rewrite ?(fn_lookup_insert_ne _ _ (PixelContainer (objects w source)))
         by (unfold bufferOf in Hso; congruence).
  all: split; intros i; pose proof (crop_Some_inside _ _ _ i Hcrop) as Hc;
    unfold copyPixels, translate; cbn [GetIndex]; intros;
    repeat case_bool_decide;
    rewrite ?index_shift_cancel, ?index_same_cancel; try done; tauto.
Qed.

Lemma partial_overlap_step_order_witness :
  ∃ w', ThreadedGenerateData Scenario.bits Scenario.zeroRegion Scenario.pasteAt33
          (Scenario.box 0 0 5 5) 0 Scenario.world = Completed tt w'
        ∧ ThreadedGenerateData Scenario.bits Scenario.zeroRegion Scenario.pasteAt33
            (Scenario.box 0 0 5 5) 0 Scenario.world
          = ((if runsInPlace Scenario.pasteAt33 then mret tt
              else copyBetween 0 2 (Scenario.box 0 0 5 5) (Scenario.box 0 0 5 5));;
             copyBetween 1 2
               (translate (Scenario.box 3 3 2 2)
                  (delta Scenario.pasteAt33))
               (Scenario.box 3 3 2 2);;
             CompletedPixel) Scenario.world
        ∧ copies w'
          = copies Scenario.world
            ++ (if runsInPlace Scenario.pasteAt33 then []
                else [mkCopyCall 0 2 (Scenario.box 0 0 5 5) (Scenario.box 0 0 5 5)])
            ++ [mkCopyCall 1 2
                  (translate (Scenario.box 3 3 2 2)
                     (delta Scenario.pasteAt33))
                  (Scenario.box 3 3 2 2)]
        ∧ (∀ i, IsInside (Scenario.box 3 3 2 2) i →
                heap w' (bufferOf w' 2) i
                = heap Scenario.world (bufferOf Scenario.world 1)
                    (index_add i (delta
                                    Scenario.pasteAt33)))
        ∧ (∀ i, IsInside (Scenario.box 0 0 5 5) i →
                ¬ IsInside (Scenario.box 3 3 2 2) i →
                heap w' (bufferOf w' 2) i
                = if runsInPlace Scenario.pasteAt33
                  then heap Scenario.world (bufferOf Scenario.world 2) i
                  else heap Scenario.world (bufferOf Scenario.world 0) i).
Proof.
  apply (partial_overlap_step_order Scenario.bits Scenario.zeroRegion
           Scenario.pasteAt33 0 1 2 Scenario.world
           (Scenario.box 0 0 5 5) (Scenario.box 3 3 2 2) 0).
  - reflexivity.
  - reflexivity.
  - reflexivity.
  - apply source_4x4_representable.
  - vm_compute. discriminate.
  - vm_compute. reflexivity.
  - apply (bool_decide_eq_false_1 (Scenario.box 3 3 2 2 = Scenario.box 0 0 5 5)).
    vm_compute. reflexivity.
Defined.

(** ** Pure background *)

(** C6 (pure background).  When the paste region and the requested region
    crop to nothing, every partition of a covering of the requested region
    takes the no-overlap path, and after all threads the output holds over
    the whole requested region what the destination held.  When the filter
    runs in place, the output shares the pixel container of the destination
    and a default-constructed region is empty; the source image has a pixel
    container of its own and a representable source region. *)
Theorem pure_background {n Pixel} (bits : positive) (defaultRegion : ImageRegion n)
    (this : PasteImageFilter n) (dest source output : nat) (w : World n Pixel)
    (requested : ImageRegion n) (ps : list (ImageRegion n)) (tid : nat) :
  (runsInPlace this = true → ∀ i, ¬ IsInside defaultRegion i) →
  (runsInPlace this = true → bufferOf w output = bufferOf w dest) →
  GetInput this = Some dest →
  GetSourceImage this = Some source →
  GetOutput this = Some output →
  representableRegion bits (m_SourceRegion this) →
  bufferOf w source ≠ bufferOf w output →
  crop (sourceRegionInDestinationImage this) requested = None →
  Covering requested ps →
  Forall (λ p, crop (sourceRegionInDestinationImage this) p = None) ps
  ∧ ∃ w', GenerateData bits defaultRegion this ps tid w = Completed tt w'
          ∧ ∀ i, IsInside requested i →
                 heap w' (bufferOf w' output) i = heap w (bufferOf w dest) i.
Proof.
  intros Hdef Halias Hd Hs Ho Hrep Hso Hcrop [Hcov _]. split.
  - apply Forall_forall. intros p Hp.
    destruct (crop (sourceRegionInDestinationImage this) p) as [c|] eqn:Hc; [|done].
    exfalso. pose proof (crop_Some_origin _ _ _ Hc) as Horigin.
    apply (crop_Some_inside _ _ _ _ Hc) in Horigin as [Hpl Hin].
    apply (crop_None_outside _ _ (GetIndex c) Hcrop Hpl).
    apply Hcov. unfold covered. apply Exists_exists. eauto.
  - destruct (GenerateData_cells bits defaultRegion this dest source output
                Hrep Hdef Hd Hs Ho ps tid w Hso) as (w' & Hrun & Hobj & _ & _ & Hout).
    exists w'. split; [done|]. intros i Hi.
    replace (bufferOf w' output) with (bufferOf w output)
      by (unfold bufferOf; by rewrite Hobj).
    rewrite Hout, bool_decide_eq_true_2 by (by apply Hcov).
    unfold pasteCell. rewrite bool_decide_eq_false_2.
    + destruct (runsInPlace this); [by rewrite Halias | done].
    + intros Hpl. apply (crop_None_outside _ _ i Hcrop Hpl Hi).
Qed.

(** The band of the three lowest rows of the scene, in two partitions; the
    paste region at (3,3) does not reach it. *)
Lemma band_covering :
  Covering (Scenario.box 0 0 10 3) [Scenario.box 0 0 5 3; Scenario.box 5 0 5 3].
Proof.
  split; [|by apply pairwiseDisjointb_sound].
  intros i. inv_vec i; intros x y. unfold covered, Scenario.box.
  rewrite !Exists_cons, Exists_nil, !IsInside_2d. lia.
Qed.

Lemma pure_background_witness :
  Forall (λ p, crop (sourceRegionInDestinationImage Scenario.pasteAt33InPlace) p = None)
         [Scenario.box 0 0 5 3; Scenario.box 5 0 5 3]
  ∧ ∃ w', GenerateData Scenario.bits Scenario.zeroRegion Scenario.pasteAt33InPlace
            [Scenario.box 0 0 5 3; Scenario.box 5 0 5 3] 0 Scenario.worldInPlace
          = Completed tt w'
          ∧ ∀ i, IsInside (Scenario.box 0 0 10 3) i →
                 heap w' (bufferOf w' 2) i
                 = heap Scenario.worldInPlace (bufferOf Scenario.worldInPlace 0) i.
Proof.
  apply (pure_background Scenario.bits Scenario.zeroRegion
           Scenario.pasteAt33InPlace 0 1 2
           Scenario.worldInPlace (Scenario.box 0 0 10 3)).
  - intros _. apply zero_region_empty.
  - intros _. reflexivity.
  - reflexivity.
  - reflexivity.
  - reflexivity.
  - apply source_4x4_representable.
  - vm_compute. discriminate.
  - vm_compute. reflexivity.
  - apply band_covering.
Defined.

(** ** Round trip *)

(** A cell of a region that fits inside another one lies in that one. *)
Lemma fitsInside_inside {n} (inner outer : ImageRegion n) i :
  fitsInside inner outer → IsInside inner i → IsInside outer i.
Proof. intros Hfit Hi d. specialize (Hfit d). specialize (Hi d). lia. Qed.

(** C9 (round trip).  Let the paste region, the source region moved to the
    destination index, fit inside the requested region, and let the threads
    of any covering of the requested region run.  Then reading the output
    over the paste region gives back the source over the source region: the
    output cell at the destination index plus [j] minus the origin of the
    source region holds what the source held at [j], for every cell [j] of
    the source region.  The source image does not share its pixel container
    with the output, and the source region is representable in the index
    type. *)
Theorem round_trip {n Pixel} (bits : positive) (defaultRegion : ImageRegion n)
    (this : PasteImageFilter n) (dest source output : nat) (w : World n Pixel)
    (requested : ImageRegion n) (ps : list (ImageRegion n)) (tid : nat) :
  (runsInPlace this = true → ∀ i, ¬ IsInside defaultRegion i) →
  GetInput this = Some dest →
  GetSourceImage this = Some source →
  GetOutput this = Some output →
  representableRegion bits (m_SourceRegion this) →
  bufferOf w source ≠ bufferOf w output →
  fitsInside (sourceRegionInDestinationImage this) requested →
  Covering requested ps →
  ∃ w', GenerateData bits defaultRegion this ps tid w = Completed tt w'
        ∧ ∀ j, IsInside (m_SourceRegion this) j →
               heap w' (bufferOf w' output)
                    (index_add (m_DestinationIndex this)
                               (index_sub j (GetIndex (m_SourceRegion this))))
               = heap w (bufferOf w source) j.
Proof.
  intros Hdef Hd Hs Ho Hrep Hso Hfit [Hcov _].
  destruct (GenerateData_cells bits defaultRegion this dest source output
              Hrep Hdef Hd Hs Ho ps tid w Hso) as (w' & Hrun & Hobj & _ & _ & Hout).
  exists w'. split; [done|]. intros j Hj.
  replace (bufferOf w' output) with (bufferOf w output)
    by (unfold bufferOf; by rewrite Hobj).
  set (i := index_add _ _).
  assert (Hpl : IsInside (sourceRegionInDestinationImage this) i).
  { intros d. specialize (Hj d). subst i.
    unfold sourceRegionInDestinationImage, upper in *. cbn [GetIndex GetSize].
    rewrite index_add_lookup, index_sub_lookup. lia. }
  rewrite Hout, bool_decide_eq_true_2
    by (apply Hcov; by apply (fitsInside_inside _ _ _ Hfit)).
  unfold pasteCell. rewrite bool_decide_eq_true_2 by done.
  subst i. unfold delta. by rewrite index_add_sub_assoc.
Qed.

Lemma round_trip_witness :
  ∃ w', GenerateData Scenario.bits Scenario.zeroRegion Scenario.pasteAt33 Scenario.quadrants 0
          Scenario.world = Completed tt w'
        ∧ ∀ j, IsInside (m_SourceRegion Scenario.pasteAt33) j →
               heap w' (bufferOf w' 2)
                    (index_add (m_DestinationIndex Scenario.pasteAt33)
                       (index_sub j (GetIndex (m_SourceRegion Scenario.pasteAt33))))
               = heap Scenario.world (bufferOf Scenario.world 1) j.
Proof.
  apply (round_trip Scenario.bits Scenario.zeroRegion Scenario.pasteAt33 0 1 2
           Scenario.world Scenario.whole).
  - intros _. apply zero_region_empty.
  - reflexivity.
  - reflexivity.
  - reflexivity.
  - apply source_4x4_representable.
  - vm_compute. discriminate.
  - apply (bool_decide_eq_true_1
             (fitsInside (sourceRegionInDestinationImage Scenario.pasteAt33)
                         Scenario.whole)).
    vm_compute. reflexivity.
  - apply quadrants_covering.
Defined.

(** ** Constructor defaults *)

(** C10 (constructor defaults).  A freshly constructed filter has in-place
    execution off, a destination index of zeros, and two required inputs.
    Hence a filter that is wired and given a source region, but no
    destination index, pastes the source region at the origin of the
    destination index space: the paste region starts at the zero index, it
    does not run in place, and after the threads of any covering of the
    requested region every requested cell inside the paste region holds the
    source cell shifted by the origin of the source region, every other one
    the destination cell (the source region being representable in the
    index type, and the source image having a pixel container of its
    own). *)
Theorem constructor_defaults {n Pixel} (bits : positive)
    (defaultRegion : ImageRegion n)
    (base : PasteImageFilter n) (dest source output : nat) (region : ImageRegion n)
    (w : World n Pixel) (requested : ImageRegion n) (ps : list (ImageRegion n))
    (tid : nat) :
  Output base = Some output →
  representableRegion bits region →
  bufferOf w source ≠ bufferOf w output →
  Covering requested ps →
  GetInPlace (PasteImageFilter_new base) = false
  ∧ (∀ d, m_DestinationIndex (PasteImageFilter_new base) !!! d = 0)
  ∧ m_NumberOfRequiredInputs (PasteImageFilter_new base) = 2%nat
  ∧ sourceRegionInDestinationImage
      (pasteWithoutDestinationIndex base dest source region)
    = mkRegion (Fill 0) (GetSize region)
  ∧ ∃ w', GenerateData bits defaultRegion
            (pasteWithoutDestinationIndex base dest source region) ps tid w
          = Completed tt w'
          ∧ ∀ i, IsInside requested i →
                 heap w' (bufferOf w' output) i
                 = if bool_decide (IsInside (mkRegion (Fill 0) (GetSize region)) i)
                   then heap w (bufferOf w source) (index_add i (GetIndex region))
                   else heap w (bufferOf w dest) i.
Proof.
  intros Ho Hrep Hso [Hcov _].
  split; [reflexivity|]. split; [intros d; apply vlookup_replicate|].
  split; [reflexivity|]. split; [reflexivity|].
  set (this := pasteWithoutDestinationIndex base dest source region).
  assert (Hin : runsInPlace this = false) by reflexivity.
  assert (Hdef : runsInPlace this = true → ∀ i, ¬ IsInside defaultRegion i)
    by (by rewrite Hin).
  destruct (GenerateData_cells bits defaultRegion this dest source output
              Hrep Hdef eq_refl eq_refl Ho ps tid w Hso)
    as (w' & Hrun & Hobj & _ & _ & Hout).
  exists w'. split; [done|]. intros i Hi.
  replace (bufferOf w' output) with (bufferOf w output)
    by (unfold bufferOf; by rewrite Hobj).
  rewrite Hout, bool_decide_eq_true_2 by (by apply Hcov).
  unfold pasteCell. rewrite Hin.
  change (sourceRegionInDestinationImage this) with (mkRegion (Fill 0) (GetSize region)).
  replace (index_add i (delta this))
    with (index_add i (GetIndex region)); [done|].
  apply vec_eq; intros d.
  change (delta this) with (index_sub (GetIndex region) (Fill 0)).
  rewrite !index_add_lookup, index_sub_lookup.
  unfold Fill. rewrite vlookup_replicate. lia.
Qed.

Lemma constructor_defaults_witness :
  GetInPlace Scenario.fresh = false
  ∧ (∀ d, m_DestinationIndex Scenario.fresh !!! d = 0)
  ∧ m_NumberOfRequiredInputs Scenario.fresh = 2%nat
  ∧ sourceRegionInDestinationImage Scenario.pasteAtOrigin
    = mkRegion (Fill 0) (GetSize (Scenario.box 0 0 4 4))
  ∧ ∃ w', GenerateData Scenario.bits Scenario.zeroRegion Scenario.pasteAtOrigin
            Scenario.quadrants 0 Scenario.world = Completed tt w'
          ∧ ∀ i, IsInside Scenario.whole i →
                 heap w' (bufferOf w' 2) i
                 = if bool_decide
                        (IsInside (mkRegion (Fill 0) (GetSize (Scenario.box 0 0 4 4))) i)
                   then heap Scenario.world (bufferOf Scenario.world 1)
                             (index_add i (GetIndex (Scenario.box 0 0 4 4)))
                   else heap Scenario.world (bufferOf Scenario.world 0) i.
Proof.
  apply (constructor_defaults Scenario.bits Scenario.zeroRegion
           (mkFilter Scenario.zeroRegion (Fill 7) true 0 true (λ _, None) (Some 2%nat))
           0 1 2 (Scenario.box 0 0 4 4) Scenario.world Scenario.whole
           Scenario.quadrants 0).
  - reflexivity.
  - apply source_4x4_representable.
  - vm_compute. discriminate.
  - apply quadrants_covering.
Defined.

(** ** Demand propagation *)

(** C7 (demand propagation).  With destination, source and output images
    attached, the source being an image object of its own, and the
    superclass step completing without touching the requested region of the
    output: [GenerateInputRequestedRegion] completes, the destination is
    asked for exactly the requested region of the output, and the source for
    the whole source region, whatever part of it the requested region
    meets. *)
Theorem demand_propagation {n Pixel}
    (Superclass_GenerateInputRequestedRegion : PasteImageFilter n → M n Pixel unit)
    (this : PasteImageFilter n) (dest source output : nat) (w w0 : World n Pixel) :
  GetInput this = Some dest →
  GetSourceImage this = Some source →
  GetOutput this = Some output →
  source ≠ dest →
  source ≠ output →
  Superclass_GenerateInputRequestedRegion this w = Completed tt w0 →
  RequestedRegion (objects w0 output) = RequestedRegion (objects w output) →
  ∃ w', GenerateInputRequestedRegion Superclass_GenerateInputRequestedRegion this w
        = Completed tt w'
        ∧ RequestedRegion (objects w' dest) = RequestedRegion (objects w output)
        ∧ RequestedRegion (objects w' source) = m_SourceRegion this.
Proof.
  intros Hd Hs Ho Hsd Hso Hsuper Hkeep.
  unfold GenerateInputRequestedRegion. rewrite Hd, Hs, Ho.
  cbv [mbind M_bind]. rewrite Hsuper.
  cbv [SetRequestedRegion GetRequestedRegion]. cbn [objects].
  eexists. split; [reflexivity|]. cbn [objects]. split.
  - rewrite fn_lookup_insert. cbn [RequestedRegion].
    rewrite fn_lookup_insert_ne by done. exact Hkeep.
  - rewrite fn_lookup_insert_ne by congruence.
    rewrite fn_lookup_insert. reflexivity.
Qed.

Lemma demand_propagation_witness :
  ∃ w', GenerateInputRequestedRegion Scenario.requestOutputRegion
          Scenario.pasteAt33 Scenario.world = Completed tt w'
        ∧ RequestedRegion (objects w' 0) = RequestedRegion (objects Scenario.world 2)
        ∧ RequestedRegion (objects w' 1) = m_SourceRegion Scenario.pasteAt33.
Proof.
  apply (demand_propagation Scenario.requestOutputRegion Scenario.pasteAt33 0 1 2
           Scenario.world
           (mkWorld (<[1%nat := mkImage 1 (Scenario.box 0 0 4 4) Scenario.whole]>
                       (<[0%nat := mkImage 0 Scenario.whole Scenario.whole]>
                          Scenario.separate))
                    Scenario.pixels [] 0)).
  - reflexivity.
  - reflexivity.
  - reflexivity.
  - discriminate.
  - discriminate.
  - reflexivity.
  - reflexivity.
Defined.

(** C8, as the code has it.  [GenerateInputRequestedRegion] validates
    nothing: whenever the superclass step completes it completes too, for
    every placement, every requested region and every extent of the images,
    and it leaves pixel buffers, copy log and progress as the superclass
    step left them.  It raises no error of its own. *)
Theorem propagation_validates_nothing {n Pixel}
    (Superclass_GenerateInputRequestedRegion : PasteImageFilter n → M n Pixel unit)
    (this : PasteImageFilter n) (w w0 : World n Pixel) :
  Superclass_GenerateInputRequestedRegion this w = Completed tt w0 →
  ∃ w', GenerateInputRequestedRegion Superclass_GenerateInputRequestedRegion this w
        = Completed tt w'
        ∧ heap w' = heap w0
        ∧ copies w' = copies w0
        ∧ progress w' = progress w0.
Proof.
  intros Hsuper. unfold GenerateInputRequestedRegion.
  cbv [mbind M_bind]. rewrite Hsuper.
  destruct (GetInput this), (GetSourceImage this), (GetOutput this);
    cbv [SetRequestedRegion GetRequestedRegion mret M_ret];
    eexists; (split; [reflexivity|]); by repeat split.
Qed.

Lemma propagation_validates_nothing_witness :
  ∃ w', GenerateInputRequestedRegion Scenario.requestOutputRegion
          Scenario.pasteAt88 Scenario.world = Completed tt w'
        ∧ heap w' = Scenario.pixels
        ∧ copies w' = []
        ∧ progress w' = 0%nat.
Proof.
  apply (propagation_validates_nothing Scenario.requestOutputRegion
           Scenario.pasteAt88 Scenario.world
           (mkWorld (<[1%nat := mkImage 1 (Scenario.box 0 0 4 4) Scenario.whole]>
                       (<[0%nat := mkImage 0 Scenario.whole Scenario.whole]>
                          Scenario.separate))
                    Scenario.pixels [] 0)).
  reflexivity.
Defined.

(** C8 as stated fails.  In the scene with the destination index (8,8) the
    paste region reaches (12,12) and does not fit inside the 10 x 10
    destination; demand propagation completes all the same, and the thread
    of the whole output then pastes the part of the source that the output
    holds: the output cell (9,9) receives the source value 1, the cell
    (7,9) the destination value 0. *)
Lemma propagation_accepts_unfit_placement :
  ¬ fitsInside (sourceRegionInDestinationImage Scenario.pasteAt88)
               (LargestPossibleRegion (objects Scenario.world 0))
  ∧ Scenario.failureOf
      (GenerateInputRequestedRegion Scenario.requestOutputRegion
         Scenario.pasteAt88 Scenario.world) = None
  ∧ Scenario.failureOf
      (GenerateInputRequestedRegion Scenario.requestOutputRegion
         Scenario.pasteAt88 Scenario.world) ≠ Some InvalidPlacementError
  ∧ Scenario.outputAt
      (GenerateData Scenario.bits Scenario.zeroRegion Scenario.pasteAt88 [Scenario.whole] 0
         Scenario.world) [# 9; 9] = Some 1
  ∧ Scenario.outputAt
      (GenerateData Scenario.bits Scenario.zeroRegion Scenario.pasteAt88 [Scenario.whole] 0
         Scenario.world) [# 7; 9] = Some 0.
Proof.
  split.
  - apply (bool_decide_eq_false_1 _). vm_compute. reflexivity.
  - repeat split; by vm_compute.
Qed.

(** * Further properties of the paste filter *)

(** A region cropped out of two regions fits inside both. *)
Lemma crop_Some_fits {n} (a b c : ImageRegion n) :
  crop a b = Some c → fitsInside c a ∧ fitsInside c b.
Proof.
  intros (Hpos & Hidx & Hup)%crop_Some.
  split; intros d; rewrite Hidx, Hup; lia.
Qed.

(** A region inside the paste region, moved by [delta], lies inside the
    source region. *)
Lemma translate_fits_source {n} (this : PasteImageFilter n) (c : ImageRegion n) :
  fitsInside c (sourceRegionInDestinationImage this) →
  fitsInside (translate c (delta this)) (m_SourceRegion this).
Proof.
  intros Hfit d. specialize (Hfit d).
  unfold translate, upper, delta, sourceRegionInDestinationImage in *.
  cbn [GetIndex GetSize] in *. rewrite index_add_lookup, index_sub_lookup. lia.
Qed.

Section Threads.
Context {n : nat} {Pixel : Type}.
Variable bits : positive.
Variable defaultRegion : ImageRegion n.
Variable this : PasteImageFilter n.
Variables dest source output : nat.
Implicit Types (w : World n Pixel) (p c : ImageRegion n) (i : vec Z n).

Hypothesis defaultRegion_empty :
  runsInPlace this = true → ∀ i, ¬ IsInside defaultRegion i.
Hypothesis dest_set : GetInput this = Some dest.
Hypothesis source_set : GetSourceImage this = Some source.
Hypothesis output_set : GetOutput this = Some output.

(** Whatever the source region and the wiring of the buffers: a thread
    completes, leaves the image objects alone, reports one unit of progress
    and changes no pixel outside its region of the output's buffer. *)
Lemma ThreadedGenerateData_frame w p tid :
  ∃ w', ThreadedGenerateData bits defaultRegion this p tid w = Completed tt w'
        ∧ objects w' = objects w
        ∧ progress w' = S (progress w)
        ∧ ∀ b i, b ≠ bufferOf w output ∨ ¬ IsInside p i → heap w' b i = heap w b i.
Proof.
  unfold ThreadedGenerateData. rewrite dest_set, source_set, output_set.
  destruct (crop (sourceRegionInDestinationImage this) p) as [c|] eqn:Hcrop;
    cbv zeta; cbn [negb andb];
    destruct (runsInPlace this) eqn:Hin; cbn [negb andb].
  all: try (unfold equals; destruct (bool_decide (c = p)) eqn:Heq).
  all: run_M; cbn [objects progress heap copies].
  all: eexists; split; [reflexivity|]; cbn [objects progress heap copies].
  all: split; [reflexivity|]; split; [reflexivity|].
  all: intros b i Hbi; unfold bufferOf in *; cbn [objects heap] in *.
  all: destruct (decide (b = PixelContainer (objects w output))) as [->|Hb];
         [|by rewrite ?fn_lookup_insert_ne by congruence].
  all: destruct Hbi as [?|Hout]; [done|].
  all: pose proof (λ H, defaultRegion_empty H i) as Hdef.
  all: try apply bool_decide_eq_true in Heq; try subst c.
  all: try pose proof (crop_Some_inside _ _ _ i Hcrop) as Hc.
  all: repeat (rewrite fn_lookup_insert; unfold copyPixels; cbn [GetIndex]).
  all: repeat case_bool_decide; try done; tauto.
Qed.

End Threads.

(** ** One thread *)

(** X1 (what one thread computes).  With the three images attached, the
    source region representable and the source image in a pixel container
    of its own, a thread completes and leaves the image objects as they
    were; each cell of its partition ends as the source cell shifted by
    [delta] when the paste region holds it, and otherwise as the destination
    cell (in place: as the cell the shared buffer held); every output cell
    outside the partition keeps its value. *)
Theorem thread_output {n Pixel} (bits : positive) (defaultRegion : ImageRegion n)
    (this : PasteImageFilter n) (dest source output : nat) (w : World n Pixel)
    (p : ImageRegion n) (tid : nat) :
  (runsInPlace this = true → ∀ i, ¬ IsInside defaultRegion i) →
  GetInput this = Some dest →
  GetSourceImage this = Some source →
  GetOutput this = Some output →
  representableRegion bits (m_SourceRegion this) →
  bufferOf w source ≠ bufferOf w output →
  ∃ w', ThreadedGenerateData bits defaultRegion this p tid w = Completed tt w'
        ∧ objects w' = objects w
        ∧ ∀ i, heap w' (bufferOf w output) i
               = if bool_decide (IsInside p i)
                 then if bool_decide (IsInside (sourceRegionInDestinationImage this) i)
                      then heap w (bufferOf w source) (index_add i (delta this))
                      else if runsInPlace this then heap w (bufferOf w output) i
                           else heap w (bufferOf w dest) i
                 else heap w (bufferOf w output) i.
Proof.
  intros Hdef Hd Hs Ho Hrep Hso.
  destruct (ThreadedGenerateData_cells bits defaultRegion this dest source output
              Hrep Hdef Hd Hs Ho w p tid Hso) as (w' & Hrun & Hobj & _ & _ & Hout).
  exists w'. split; [done|]. split; [done|]. intros i. by rewrite Hout.
Qed.

Lemma thread_output_witness :
  ∃ w', ThreadedGenerateData Scenario.bits Scenario.zeroRegion Scenario.pasteAt33
          (Scenario.box 0 0 5 5) 0 Scenario.world = Completed tt w'
        ∧ objects w' = objects Scenario.world
        ∧ ∀ i, heap w' (bufferOf Scenario.world 2) i
               = if bool_decide (IsInside (Scenario.box 0 0 5 5) i)
                 then if bool_decide
                           (IsInside (sourceRegionInDestinationImage Scenario.pasteAt33) i)
                      then heap Scenario.world (bufferOf Scenario.world 1)
                                (index_add i (delta Scenario.pasteAt33))
                      else if runsInPlace Scenario.pasteAt33
                           then heap Scenario.world (bufferOf Scenario.world 2) i
                           else heap Scenario.world (bufferOf Scenario.world 0) i
                 else heap Scenario.world (bufferOf Scenario.world 2) i.
Proof.
  apply (thread_output Scenario.bits Scenario.zeroRegion Scenario.pasteAt33 0 1 2
           Scenario.world (Scenario.box 0 0 5 5) 0).
  - intros _. apply zero_region_empty.
  - reflexivity.
  - reflexivity.
  - reflexivity.
  - apply source_4x4_representable.
  - vm_compute. discriminate.
Defined.

(** X2 (a thread writes only its own partition).  With the three images
    attached, and whatever the source region and the sharing of pixel
    containers, a thread changes no pixel of any buffer other than the
    output's, and in the output's buffer no pixel outside its partition; it
    changes no image object.  (In place this asks that a default-constructed
    region be empty.) *)
Theorem thread_writes_only_its_partition {n Pixel} (bits : positive)
    (defaultRegion : ImageRegion n) (this : PasteImageFilter n)
    (dest source output : nat) (w : World n Pixel) (p : ImageRegion n) (tid : nat) :
  (runsInPlace this = true → ∀ i, ¬ IsInside defaultRegion i) →
  GetInput this = Some dest →
  GetSourceImage this = Some source →
  GetOutput this = Some output →
  ∃ w', ThreadedGenerateData bits defaultRegion this p tid w = Completed tt w'
        ∧ objects w' = objects w
        ∧ ∀ b i, b ≠ bufferOf w output ∨ ¬ IsInside p i → heap w' b i = heap w b i.
Proof.
  intros Hdef Hd Hs Ho.
  destruct (ThreadedGenerateData_frame bits defaultRegion this dest source output
              Hdef Hd Hs Ho w p tid) as (w' & Hrun & Hobj & _ & Hframe).
  exists w'. by repeat split.
Qed.

(** The filter of the scene with the destination wired as its own source,
    run in place: source, destination and output share one buffer. *)
Lemma thread_writes_only_its_partition_witness :
  ∃ w', ThreadedGenerateData Scenario.bits Scenario.zeroRegion
          (SetSourceImage (Some 0%nat) Scenario.pasteAt33InPlace)
          (Scenario.box 0 0 5 5) 0 Scenario.worldInPlace = Completed tt w'
        ∧ objects w' = objects Scenario.worldInPlace
        ∧ ∀ b i, b ≠ bufferOf Scenario.worldInPlace 2
                 ∨ ¬ IsInside (Scenario.box 0 0 5 5) i →
                 heap w' b i = heap Scenario.worldInPlace b i.
Proof.
  apply (thread_writes_only_its_partition Scenario.bits Scenario.zeroRegion
           (SetSourceImage (Some 0%nat) Scenario.pasteAt33InPlace) 0 0 2
           Scenario.worldInPlace (Scenario.box 0 0 5 5) 0).
  - intros _. apply zero_region_empty.
  - reflexivity.
  - reflexivity.
  - reflexivity.
Defined.

(** X3 (no overlap, out of place).  When the paste region does not reach
    the partition and the filter does not run in place, the thread issues
    exactly one copy, of the destination onto the output over the partition,
    and the output then holds the destination over the partition.  The
    source image is not used: the thread completes even when no source is
    attached. *)
Theorem no_overlap_copies_destination {n Pixel} (bits : positive)
    (defaultRegion : ImageRegion n) (this : PasteImageFilter n)
    (dest output : nat) (w : World n Pixel) (p : ImageRegion n) (tid : nat) :
  GetInput this = Some dest →
  GetOutput this = Some output →
  crop (sourceRegionInDestinationImage this) p = None →
  runsInPlace this = false →
  ∃ w', ThreadedGenerateData bits defaultRegion this p tid w = Completed tt w'
        ∧ copies w' = copies w ++ [mkCopyCall dest output p p]
        ∧ ∀ i, IsInside p i →
               heap w' (bufferOf w' output) i = heap w (bufferOf w dest) i.
Proof.
  intros Hd Ho Hcrop Hin.
  rewrite (run_no_overlap_copy _ _ _ _ _ Hcrop Hin), Hd, Ho. run_M.
  eexists. split; [reflexivity|]. cbn [copies]. split; [reflexivity|].
  intros i Hi. unfold bufferOf; cbn [objects heap].
  rewrite fn_lookup_insert. unfold copyPixels.
  by rewrite bool_decide_eq_true_2, index_same_cancel.
Qed.

Lemma no_overlap_copies_destination_witness :
  ∃ w', ThreadedGenerateData Scenario.bits Scenario.zeroRegion
          (SetSourceImage None Scenario.pasteAt33) (Scenario.box 0 0 2 2) 0
          Scenario.world = Completed tt w'
        ∧ copies w'
          = copies Scenario.world
            ++ [mkCopyCall 0 2 (Scenario.box 0 0 2 2) (Scenario.box 0 0 2 2)]
        ∧ ∀ i, IsInside (Scenario.box 0 0 2 2) i →
               heap w' (bufferOf w' 2) i
               = heap Scenario.world (bufferOf Scenario.world 0) i.
Proof.
  apply (no_overlap_copies_destination Scenario.bits Scenario.zeroRegion
           (SetSourceImage None Scenario.pasteAt33) 0 2 Scenario.world
           (Scenario.box 0 0 2 2) 0).
  - reflexivity.
  - reflexivity.
  - vm_compute. reflexivity.
  - reflexivity.
Defined.

(** X4 (copy calls and progress of a thread).  With the three images
    attached, a thread issues one copy call, or two when the paste region
    covers part of its partition and the filter does not run in place;
    every call writes the output image, and the thread reports exactly one
    unit of progress. *)
Theorem thread_copy_calls {n Pixel} (bits : positive)
    (defaultRegion : ImageRegion n) (this : PasteImageFilter n)
    (dest source output : nat) (w : World n Pixel) (p : ImageRegion n) (tid : nat) :
  GetInput this = Some dest →
  GetSourceImage this = Some source →
  GetOutput this = Some output →
  ∃ w' calls,
    ThreadedGenerateData bits defaultRegion this p tid w = Completed tt w'
    ∧ copies w' = copies w ++ calls
    ∧ Forall (λ call, outImage call = output) calls
    ∧ length calls
      = match crop (sourceRegionInDestinationImage this) p with
        | Some c => if bool_decide (c = p) then 1%nat
                    else if runsInPlace this then 1%nat else 2%nat
        | None => 1%nat
        end
    ∧ progress w' = S (progress w).
Proof.
  intros Hd Hs Ho. unfold ThreadedGenerateData. rewrite Hd, Hs, Ho.
  destruct (crop (sourceRegionInDestinationImage this) p) as [c|] eqn:Hcrop;
    cbv zeta; cbn [negb andb];
    destruct (runsInPlace this) eqn:Hin; cbn [negb andb].
  all: try (unfold equals; destruct (bool_decide (c = p)) eqn:Heq).
  all: run_M; cbn [objects progress heap copies].
  all: rewrite <- ?app_assoc.
  all: eexists; eexists; split; [reflexivity|]; cbn [objects progress heap copies].
  all: split; [reflexivity|].
  all: split; [by repeat constructor|].
  all: by split.
Qed.

Lemma thread_copy_calls_witness :
  ∃ w' calls,
    ThreadedGenerateData Scenario.bits Scenario.zeroRegion Scenario.pasteAt33
      (Scenario.box 0 0 5 5) 0 Scenario.world = Completed tt w'
    ∧ copies w' = copies Scenario.world ++ calls
    ∧ Forall (λ call, outImage call = 2%nat) calls
    ∧ length calls
      = match crop (sourceRegionInDestinationImage Scenario.pasteAt33)
                   (Scenario.box 0 0 5 5) with
        | Some c => if bool_decide (c = Scenario.box 0 0 5 5) then 1%nat
                    else if runsInPlace Scenario.pasteAt33 then 1%nat else 2%nat
        | None => 1%nat
        end
    ∧ progress w' = S (progress Scenario.world).
Proof.
  apply (thread_copy_calls Scenario.bits Scenario.zeroRegion Scenario.pasteAt33
           0 1 2 Scenario.world (Scenario.box 0 0 5 5) 0); reflexivity.
Defined.

(** X5 (running a thread again changes nothing).  With the three images
    attached, the source region representable and the source image in a
    pixel container of its own, running the thread of a partition a second
    time leaves every pixel buffer as the first run left it. *)
Theorem thread_idempotent {n Pixel} (bits : positive) (defaultRegion : ImageRegion n)
    (this : PasteImageFilter n) (dest source output : nat) (w : World n Pixel)
    (p : ImageRegion n) (tid1 tid2 : nat) :
  (runsInPlace this = true → ∀ i, ¬ IsInside defaultRegion i) →
  GetInput this = Some dest →
  GetSourceImage this = Some source →
  GetOutput this = Some output →
  representableRegion bits (m_SourceRegion this) →
  bufferOf w source ≠ bufferOf w output →
  ∃ w1 w2,
    ThreadedGenerateData bits defaultRegion this p tid1 w = Completed tt w1
    ∧ ThreadedGenerateData bits defaultRegion this p tid2 w1 = Completed tt w2
    ∧ ∀ b i, heap w2 b i = heap w1 b i.
Proof.
  intros Hdef Hd Hs Ho Hrep Hso.
  destruct (ThreadedGenerateData_cells bits defaultRegion this dest source output
              Hrep Hdef Hd Hs Ho w p tid1 Hso)
    as (w1 & Hrun1 & Hobj1 & _ & Hoth1 & Hout1).
  assert (Hbuf : ∀ x, bufferOf w1 x = bufferOf w x)
    by (intros x; unfold bufferOf; by rewrite Hobj1).
  assert (Hso1 : bufferOf w1 source ≠ bufferOf w1 output) by (by rewrite !Hbuf).
  destruct (ThreadedGenerateData_cells bits defaultRegion this dest source output
              Hrep Hdef Hd Hs Ho w1 p tid2 Hso1)
    as (w2 & Hrun2 & _ & _ & Hoth2 & Hout2).
  exists w1, w2. split; [done|]. split; [done|]. intros b i.
  destruct (decide (b = bufferOf w1 output)) as [->|Hb]; [|by rewrite (Hoth2 _ Hb)].
  rewrite Hout2. case_bool_decide as Hp; [|done].
  rewrite (pasteCell_stable defaultRegion this dest source output Hdef
             w w1 Hso Hobj1 Hoth1).
  - rewrite Hbuf, Hout1. by rewrite bool_decide_eq_true_2.
  - intros j. rewrite Hout1. case_bool_decide; auto.
Qed.

Lemma thread_idempotent_witness :
  ∃ w1 w2,
    ThreadedGenerateData Scenario.bits Scenario.zeroRegion Scenario.pasteAt33InPlace
      (Scenario.box 0 0 5 5) 0 Scenario.worldInPlace = Completed tt w1
    ∧ ThreadedGenerateData Scenario.bits Scenario.zeroRegion Scenario.pasteAt33InPlace
        (Scenario.box 0 0 5 5) 1 w1 = Completed tt w2
    ∧ ∀ b i, heap w2 b i = heap w1 b i.
Proof.
  apply (thread_idempotent Scenario.bits Scenario.zeroRegion
           Scenario.pasteAt33InPlace 0 1 2 Scenario.worldInPlace
           (Scenario.box 0 0 5 5) 0 1).
  - intros _. apply zero_region_empty.
  - reflexivity.
  - reflexivity.
  - reflexivity.
  - apply source_4x4_representable.
  - vm_compute. discriminate.
Defined.

(** X6 (the source copy stays inside the source region).  When the paste
    region reaches a partition, the last copy call of its thread reads the
    source over the cropped region moved by [delta]; that region lies inside
    the source region and has the size of the region written, which lies
    inside both the partition and the paste region.  The three images are
    attached and the source region is representable. *)
Theorem source_copy_within_source_region {n Pixel} (bits : positive)
    (defaultRegion : ImageRegion n) (this : PasteImageFilter n)
    (dest source output : nat) (w : World n Pixel) (p c : ImageRegion n) (tid : nat) :
  GetInput this = Some dest →
  GetSourceImage this = Some source →
  GetOutput this = Some output →
  representableRegion bits (m_SourceRegion this) →
  crop (sourceRegionInDestinationImage this) p = Some c →
  ∃ w' before,
    ThreadedGenerateData bits defaultRegion this p tid w = Completed tt w'
    ∧ copies w'
      = copies w ++ before ++ [mkCopyCall source output (translate c (delta this)) c]
    ∧ fitsInside (translate c (delta this)) (m_SourceRegion this)
    ∧ GetSize (translate c (delta this)) = GetSize c
    ∧ fitsInside c p
    ∧ fitsInside c (sourceRegionInDestinationImage this).
Proof.
  intros Hd Hs Ho Hrep Hcrop.
  destruct (crop_Some_fits _ _ _ Hcrop) as [Hpl Hp].
  pose proof (translate_fits_source this c Hpl) as Hsrc.
  destruct (decide (c = p)) as [->|Hne].
  - rewrite (run_full_overlap _ _ _ Hrep _ _ Hcrop), Hs, Ho. run_M.
    eexists. exists []. split; [reflexivity|]. cbn [copies]. by repeat (split; [done|]).
  - rewrite (run_partial_overlap _ _ _ Hrep _ _ _ Hcrop Hne), Hd, Hs, Ho.
    destruct (runsInPlace this); cbn [negb]; run_M.
    + eexists. exists []. split; [reflexivity|]. cbn [copies]. by repeat (split; [done|]).
    + eexists. exists [mkCopyCall dest output p p]. split; [reflexivity|].
      cbn [copies]. rewrite <- app_assoc. by repeat (split; [done|]).
Qed.

Lemma source_copy_within_source_region_witness :
  ∃ w' before,
    ThreadedGenerateData Scenario.bits Scenario.zeroRegion Scenario.pasteAt33
      (Scenario.box 5 5 5 5) 3 Scenario.world = Completed tt w'
    ∧ copies w'
      = copies Scenario.world ++ before
        ++ [mkCopyCall 1 2 (translate (Scenario.box 5 5 2 2) (delta Scenario.pasteAt33))
                       (Scenario.box 5 5 2 2)]
    ∧ fitsInside (translate (Scenario.box 5 5 2 2) (delta Scenario.pasteAt33))
                 (m_SourceRegion Scenario.pasteAt33)
    ∧ GetSize (translate (Scenario.box 5 5 2 2) (delta Scenario.pasteAt33))
      = GetSize (Scenario.box 5 5 2 2)
    ∧ fitsInside (Scenario.box 5 5 2 2) (Scenario.box 5 5 5 5)
    ∧ fitsInside (Scenario.box 5 5 2 2)
                 (sourceRegionInDestinationImage Scenario.pasteAt33).
Proof.
  apply (source_copy_within_source_region Scenario.bits Scenario.zeroRegion
           Scenario.pasteAt33 0 1 2 Scenario.world
           (Scenario.box 5 5 5 5) (Scenario.box 5 5 2 2) 3).
  - reflexivity.
  - reflexivity.
  - reflexivity.
  - apply source_4x4_representable.
  - vm_compute. reflexivity.
Defined.

(** X7 (an empty partition).  The thread of a partition that holds no cell
    completes and changes no pixel of any buffer, whatever the placement.
    The three images are attached; in place, a default-constructed region
    is empty. *)
Theorem empty_partition_changes_nothing {n Pixel} (bits : positive)
    (defaultRegion : ImageRegion n) (this : PasteImageFilter n)
    (dest source output : nat) (w : World n Pixel) (p : ImageRegion n) (tid : nat) :
  (runsInPlace this = true → ∀ i, ¬ IsInside defaultRegion i) →
  GetInput this = Some dest →
  GetSourceImage this = Some source →
  GetOutput this = Some output →
  (∀ i, ¬ IsInside p i) →
  ∃ w', ThreadedGenerateData bits defaultRegion this p tid w = Completed tt w'
        ∧ ∀ b i, heap w' b i = heap w b i.
Proof.
  intros Hdef Hd Hs Ho Hempty.
  destruct (ThreadedGenerateData_frame bits defaultRegion this dest source output
              Hdef Hd Hs Ho w p tid) as (w' & Hrun & _ & _ & Hframe).
  exists w'. split; [done|]. intros b i. apply Hframe. right. apply Hempty.
Qed.

Lemma empty_partition_changes_nothing_witness :
  ∃ w', ThreadedGenerateData Scenario.bits Scenario.zeroRegion Scenario.pasteAt33
          (Scenario.box 4 4 0 5) 0 Scenario.world = Completed tt w'
        ∧ ∀ b i, heap w' b i = heap Scenario.world b i.
Proof.
  apply (empty_partition_changes_nothing Scenario.bits Scenario.zeroRegion
           Scenario.pasteAt33 0 1 2 Scenario.world (Scenario.box 4 4 0 5) 0).
  - intros _. apply zero_region_empty.
  - reflexivity.
  - reflexivity.
  - reflexivity.
  - intros i. apply (zero_size_empty _ 0%fin). reflexivity.
Defined.

(** ** A sequence of threads *)

(** X8 (what a sequence of threads computes).  For any list of partitions,
    disjoint or not and in any order, the threads complete and report one
    unit of progress each; every cell some partition holds ends as the
    source cell shifted by [delta] when the paste region holds it and as the
    destination cell otherwise (in place: as the cell the shared buffer
    held), every other output cell keeps its value, and no buffer but the
    output's changes.  The three images are attached, the source region is
    representable and the source image has a pixel container of its own. *)
Theorem threads_output {n Pixel} (bits : positive) (defaultRegion : ImageRegion n)
    (this : PasteImageFilter n) (dest source output : nat) (w : World n Pixel)
    (ps : list (ImageRegion n)) (tid : nat) :
  (runsInPlace this = true → ∀ i, ¬ IsInside defaultRegion i) →
  GetInput this = Some dest →
  GetSourceImage this = Some source →
  GetOutput this = Some output →
  representableRegion bits (m_SourceRegion this) →
  bufferOf w source ≠ bufferOf w output →
  ∃ w', GenerateData bits defaultRegion this ps tid w = Completed tt w'
        ∧ progress w' = (length ps + progress w)%nat
        ∧ (∀ b, b ≠ bufferOf w output → heap w' b = heap w b)
        ∧ ∀ i, heap w' (bufferOf w output) i
               = if bool_decide (covered ps i)
                 then if bool_decide (IsInside (sourceRegionInDestinationImage this) i)
                      then heap w (bufferOf w source) (index_add i (delta this))
                      else if runsInPlace this then heap w (bufferOf w output) i
                           else heap w (bufferOf w dest) i
                 else heap w (bufferOf w output) i.
Proof.
  intros Hdef Hd Hs Ho Hrep Hso.
  destruct (GenerateData_cells bits defaultRegion this dest source output
              Hrep Hdef Hd Hs Ho ps tid w Hso) as (w' & Hrun & _ & Hprog & Hoth & Hout).
  exists w'. split; [done|]. split; [done|]. split; [done|].
  intros i. by rewrite Hout.
Qed.

Lemma threads_output_witness :
  ∃ w', GenerateData Scenario.bits Scenario.zeroRegion Scenario.pasteAt88
          [Scenario.box 5 5 5 5; Scenario.box 0 5 10 5; Scenario.box 5 5 5 5] 0
          Scenario.world = Completed tt w'
        ∧ progress w' = (3 + progress Scenario.world)%nat
        ∧ (∀ b, b ≠ bufferOf Scenario.world 2 → heap w' b = heap Scenario.world b)
        ∧ ∀ i, heap w' (bufferOf Scenario.world 2) i
               = if bool_decide
                      (covered [Scenario.box 5 5 5 5; Scenario.box 0 5 10 5;
                                Scenario.box 5 5 5 5] i)
                 then if bool_decide
                           (IsInside (sourceRegionInDestinationImage Scenario.pasteAt88) i)
                      then heap Scenario.world (bufferOf Scenario.world 1)
                                (index_add i (delta Scenario.pasteAt88))
                      else if runsInPlace Scenario.pasteAt88
                           then heap Scenario.world (bufferOf Scenario.world 2) i
                           else heap Scenario.world (bufferOf Scenario.world 0) i
                 else heap Scenario.world (bufferOf Scenario.world 2) i.
Proof.
  apply (threads_output Scenario.bits Scenario.zeroRegion Scenario.pasteAt88 0 1 2
           Scenario.world
           [Scenario.box 5 5 5 5; Scenario.box 0 5 10 5; Scenario.box 5 5 5 5] 0).
  - intros _. apply zero_region_empty.
  - reflexivity.
  - reflexivity.
  - reflexivity.
  - apply source_4x4_representable.
  - vm_compute. discriminate.
Defined.

(** ** Demand propagation, further *)

(** X9 (an image is missing).  When the destination, the source or the
    output is not attached, [GenerateInputRequestedRegion] does nothing
    beyond the superclass step: it ends as that step ends, having set no
    requested region of its own. *)
Theorem propagation_with_missing_image {n Pixel}
    (Superclass_GenerateInputRequestedRegion : PasteImageFilter n → M n Pixel unit)
    (this : PasteImageFilter n) (w : World n Pixel) :
  GetInput this = None ∨ GetSourceImage this = None ∨ GetOutput this = None →
  GenerateInputRequestedRegion Superclass_GenerateInputRequestedRegion this w
  = Superclass_GenerateInputRequestedRegion this w.
Proof.
  intros Hmissing. unfold GenerateInputRequestedRegion. cbv [mbind M_bind].
  destruct (Superclass_GenerateInputRequestedRegion this w) as [[] w0|e]; [|done].
  destruct (GetInput this), (GetSourceImage this), (GetOutput this);
    try reflexivity.
  destruct Hmissing as [?|[?|?]]; discriminate.
Qed.

Lemma propagation_with_missing_image_witness :
  GenerateInputRequestedRegion Scenario.requestOutputRegion
    (SetSourceImage None Scenario.pasteAt33) Scenario.world
  = Scenario.requestOutputRegion (SetSourceImage None Scenario.pasteAt33)
      Scenario.world.
Proof.
  apply (propagation_with_missing_image Scenario.requestOutputRegion
           (SetSourceImage None Scenario.pasteAt33) Scenario.world).
  right. left. reflexivity.
Defined.

(** X10 (what demand propagation leaves alone).  With the three images
    attached and the superclass step completed, the function changes
    nothing but the requested regions of the destination and the source:
    every other image object, and the pixel container and largest possible
    region of every image object, are as the superclass step left them. *)
Theorem propagation_frame {n Pixel}
    (Superclass_GenerateInputRequestedRegion : PasteImageFilter n → M n Pixel unit)
    (this : PasteImageFilter n) (dest source output : nat) (w w0 : World n Pixel) :
  GetInput this = Some dest →
  GetSourceImage this = Some source →
  GetOutput this = Some output →
  Superclass_GenerateInputRequestedRegion this w = Completed tt w0 →
  ∃ w', GenerateInputRequestedRegion Superclass_GenerateInputRequestedRegion this w
        = Completed tt w'
        ∧ (∀ x, x ≠ dest → x ≠ source → objects w' x = objects w0 x)
        ∧ (∀ x, PixelContainer (objects w' x) = PixelContainer (objects w0 x)
                ∧ LargestPossibleRegion (objects w' x)
                  = LargestPossibleRegion (objects w0 x)).
Proof.
  intros Hd Hs Ho Hsuper. unfold GenerateInputRequestedRegion.
  rewrite Hd, Hs, Ho. cbv [mbind M_bind]. rewrite Hsuper.
  cbv [SetRequestedRegion GetRequestedRegion]. cbn [objects].
  eexists. split; [reflexivity|]. cbn [objects]. split.
  - intros x Hxd Hxs. by rewrite !fn_lookup_insert_ne.
  - intros x. destruct (decide (dest = x)) as [<-|Hxd].
    + rewrite fn_lookup_insert. cbn [PixelContainer LargestPossibleRegion].
      destruct (decide (source = dest)) as [->|Hsd].
      * by rewrite fn_lookup_insert.
      * by rewrite fn_lookup_insert_ne.
    + rewrite fn_lookup_insert_ne by done.
      destruct (decide (source = x)) as [<-|Hxs].
      * by rewrite fn_lookup_insert.
      * by rewrite fn_lookup_insert_ne.
Qed.

Lemma propagation_frame_witness :
  ∃ w', GenerateInputRequestedRegion Scenario.requestOutputRegion
          Scenario.pasteAt33 Scenario.world = Completed tt w'
        ∧ (∀ x, x ≠ 0%nat → x ≠ 1%nat → objects w' x = objects sceneAfterSuperclass x)
        ∧ (∀ x, PixelContainer (objects w' x)
                = PixelContainer (objects sceneAfterSuperclass x)
                ∧ LargestPossibleRegion (objects w' x)
                  = LargestPossibleRegion (objects sceneAfterSuperclass x)).
Proof.
  apply (propagation_frame Scenario.requestOutputRegion Scenario.pasteAt33 0 1 2
           Scenario.world sceneAfterSuperclass); reflexivity.
Defined.

(** X11 (one image as destination and source).  When the same image object
    is attached as destination and as source, the request of line 99
    overwrites that of line 96: the image ends up asked for the requested
    region of the output, not for the source region.  The output is another
    image object and the superclass step completed. *)
Theorem propagation_same_image {n Pixel}
    (Superclass_GenerateInputRequestedRegion : PasteImageFilter n → M n Pixel unit)
    (this : PasteImageFilter n) (image output : nat) (w w0 : World n Pixel) :
  GetInput this = Some image →
  GetSourceImage this = Some image →
  GetOutput this = Some output →
  output ≠ image →
  Superclass_GenerateInputRequestedRegion this w = Completed tt w0 →
  ∃ w', GenerateInputRequestedRegion Superclass_GenerateInputRequestedRegion this w
        = Completed tt w'
        ∧ RequestedRegion (objects w' image) = RequestedRegion (objects w0 output).
Proof.
  intros Hd Hs Ho Hne Hsuper. unfold GenerateInputRequestedRegion.
  rewrite Hd, Hs, Ho. cbv [mbind M_bind]. rewrite Hsuper.
  cbv [SetRequestedRegion GetRequestedRegion]. cbn [objects].
  eexists. split; [reflexivity|]. cbn [objects].
  rewrite fn_lookup_insert. cbn [RequestedRegion].
  by rewrite fn_lookup_insert_ne by congruence.
Qed.

(** The scene with the destination wired as its own source and the source
    region (0,0)+(4,4): the image is asked for the whole 10 x 10 region. *)
Lemma propagation_same_image_witness :
  ∃ w', GenerateInputRequestedRegion Scenario.requestOutputRegion
          (SetSourceImage (Some 0%nat) Scenario.pasteAt33) Scenario.world
        = Completed tt w'
        ∧ RequestedRegion (objects w' 0) = Scenario.whole.
Proof.
  assert (Hne : 2%nat ≠ 0%nat) by discriminate.
  exact (propagation_same_image Scenario.requestOutputRegion
           (SetSourceImage (Some 0%nat) Scenario.pasteAt33) 0 2 Scenario.world
           (mkWorld (<[0%nat := mkImage 0 Scenario.whole Scenario.whole]>
                       (<[0%nat := mkImage 0 Scenario.whole Scenario.whole]>
                          Scenario.separate))
                    Scenario.pixels [] 0)
           eq_refl eq_refl eq_refl Hne eq_refl).
Defined.

(** ** Wiring the two inputs *)

(** X12 (the image setters and getters).  The source image is input 1 and
    the destination image input 0: each getter gives back what its setter
    stored, setting one image leaves the other as it was, the destination is
    the image [GetInput] gives to the thread routine, and neither setter
    touches the placement. *)
Theorem image_setters_and_getters {n} (this : PasteImageFilter n) (image : option nat) :
  GetSourceImage (SetSourceImage image this) = image
  ∧ GetDestinationImage (SetDestinationImage image this) = image
  ∧ GetInput (SetDestinationImage image this) = image
  ∧ GetDestinationImage (SetSourceImage image this) = GetDestinationImage this
  ∧ GetSourceImage (SetDestinationImage image this) = GetSourceImage this
  ∧ sourceRegionInDestinationImage (SetSourceImage image this)
    = sourceRegionInDestinationImage this
  ∧ sourceRegionInDestinationImage (SetDestinationImage image this)
    = sourceRegionInDestinationImage this
  ∧ m_SourceRegion (SetSourceImage image this) = m_SourceRegion this
  ∧ m_SourceRegion (SetDestinationImage image this) = m_SourceRegion this.
Proof. by repeat split. Qed.

(** * GaussianDerivativeImageFunction *)

(** X13 ([SetUseImageSpacing]).  Provided the kernel recomputation leaves
    the flag, the sigma and the extent as they are: after the call the flag
    reads the value given and sigma and extent are unchanged; a call with
    the value the flag already has leaves the whole object untouched, so
    the kernel is not recomputed; and a second call with the same value
    changes nothing. *)
Theorem SetUseImageSpacing_spec {n Real Kernels}
    (RecomputeGaussianKernel :
       GaussianDerivativeImageFunction n Real Kernels →
       GaussianDerivativeImageFunction n Real Kernels)
    (this : GaussianDerivativeImageFunction n Real Kernels) (val : bool) :
  (∀ g, m_UseImageSpacing (RecomputeGaussianKernel g) = m_UseImageSpacing g
        ∧ m_Sigma (RecomputeGaussianKernel g) = m_Sigma g
        ∧ m_Extent (RecomputeGaussianKernel g) = m_Extent g) →
  GetUseImageSpacing (SetUseImageSpacing RecomputeGaussianKernel val this) = val
  ∧ GetSigma (SetUseImageSpacing RecomputeGaussianKernel val this) = GetSigma this
  ∧ GetExtent (SetUseImageSpacing RecomputeGaussianKernel val this) = GetExtent this
  ∧ SetUseImageSpacing RecomputeGaussianKernel (GetUseImageSpacing this) this = this
  ∧ SetUseImageSpacing RecomputeGaussianKernel val
      (SetUseImageSpacing RecomputeGaussianKernel val this)
    = SetUseImageSpacing RecomputeGaussianKernel val this.
Proof.
  intros Hkeep.
  assert (Hflag : GetUseImageSpacing (SetUseImageSpacing RecomputeGaussianKernel val this)
                  = val).
  { unfold GetUseImageSpacing, SetUseImageSpacing.
    destruct val, (m_UseImageSpacing this) eqn:E; cbn [eqb negb];
      rewrite ?(proj1 (Hkeep _)); done. }
  split; [exact Hflag|]. split; [|split; [|split]].
  - unfold GetSigma, SetUseImageSpacing.
    destruct (negb _); [|done]. by rewrite (proj1 (proj2 (Hkeep _))).
  - unfold GetExtent, SetUseImageSpacing.
    destruct (negb _); [|done]. by rewrite (proj2 (proj2 (Hkeep _))).
  - unfold GetUseImageSpacing, SetUseImageSpacing.
    by destruct (m_UseImageSpacing this).
  - unfold GetUseImageSpacing in Hflag.
    unfold SetUseImageSpacing at 1. rewrite Hflag. by destruct val.
Qed.

(** A function object with the flag off whose kernels were recomputed five
    times: switching the flag on recomputes them once, switching it on
    again does not. *)
Lemma SetUseImageSpacing_spec_witness :
  GetUseImageSpacing
    (SetUseImageSpacing countRecomputation true (mkGaussian [# 1; 2] 5%nat [# 3; 4] false))
  = true
  ∧ GetSigma
      (SetUseImageSpacing countRecomputation true
         (mkGaussian [# 1; 2] 5%nat [# 3; 4] false))
    = GetSigma (mkGaussian [# 1; 2] 5%nat [# 3; 4] false)
  ∧ GetExtent
      (SetUseImageSpacing countRecomputation true
         (mkGaussian [# 1; 2] 5%nat [# 3; 4] false))
    = GetExtent (mkGaussian [# 1; 2] 5%nat [# 3; 4] false)
  ∧ SetUseImageSpacing countRecomputation
      (GetUseImageSpacing (mkGaussian [# 1; 2] 5%nat [# 3; 4] false))
      (mkGaussian [# 1; 2] 5%nat [# 3; 4] false)
    = mkGaussian [# 1; 2] 5%nat [# 3; 4] false
  ∧ SetUseImageSpacing countRecomputation true
      (SetUseImageSpacing countRecomputation true
         (mkGaussian [# 1; 2] 5%nat [# 3; 4] false))
    = SetUseImageSpacing countRecomputation true
        (mkGaussian [# 1; 2] 5%nat [# 3; 4] false).
Proof.
  apply (SetUseImageSpacing_spec countRecomputation
           (mkGaussian [# 1; 2] 5%nat [# 3; 4] false) true).
  intros g. by repeat split.
Defined.

Example SetUseImageSpacing_counts :
  m_OperatorArray
    (SetUseImageSpacing countRecomputation true
       (SetUseImageSpacing countRecomputation true
          (mkGaussian [# 1; 2] 5%nat [# 3; 4] false))) = 6%nat
  ∧ m_OperatorArray
      (SetUseImageSpacing countRecomputation false
         (SetUseImageSpacing countRecomputation true
            (mkGaussian [# 1; 2] 5%nat [# 3; 4] false))) = 7%nat.
Proof. by vm_compute. Qed.

(** * ComplexToModulus *)

(** X14 (symmetries of the modulus).  In any arithmetic in which the
    product of a negated value with itself is the product of the value with
    itself and the sum is commutative, the modulus computed by the functor
    does not depend on the sign of the real part, on the sign of the
    imaginary part, or on which of the two parts is which. *)
Theorem ComplexToModulus_symmetries {TValue TOutput}
    (mul add : TValue → TValue → TValue) (neg sqrt : TValue → TValue)
    (cast : TValue → TOutput) (A : Complex TValue) :
  (∀ x, mul (neg x) (neg x) = mul x x) →
  (∀ x y, add x y = add y x) →
  ComplexToModulus_call mul add sqrt cast (mkComplex (neg (real A)) (imag A))
  = ComplexToModulus_call mul add sqrt cast A
  ∧ ComplexToModulus_call mul add sqrt cast (mkComplex (real A) (neg (imag A)))
    = ComplexToModulus_call mul add sqrt cast A
  ∧ ComplexToModulus_call mul add sqrt cast (mkComplex (imag A) (real A))
    = ComplexToModulus_call mul add sqrt cast A.
Proof.
  intros Hneg Hcomm. unfold ComplexToModulus_call. cbn [real imag].
  rewrite !Hneg. split; [done|]. split; [done|]. by rewrite Hcomm.
Qed.

(** Integer parts, the integer square root: the modulus of [3 - 4i]. *)
Lemma ComplexToModulus_symmetries_witness :
  ComplexToModulus_call Z.mul Z.add Z.sqrt id (mkComplex (- 3) (-4))
  = ComplexToModulus_call Z.mul Z.add Z.sqrt id (mkComplex 3 (-4))
  ∧ ComplexToModulus_call Z.mul Z.add Z.sqrt id (mkComplex 3 (- -4))
    = ComplexToModulus_call Z.mul Z.add Z.sqrt id (mkComplex 3 (-4))
  ∧ ComplexToModulus_call Z.mul Z.add Z.sqrt id (mkComplex (-4) 3)
    = ComplexToModulus_call Z.mul Z.add Z.sqrt id (mkComplex 3 (-4)).
Proof.
  apply (ComplexToModulus_symmetries Z.mul Z.add Z.opp Z.sqrt id (mkComplex 3 (-4))).
  - intros x. lia.
  - intros x y. lia.
Defined.

Example ComplexToModulus_3_4 :
  ComplexToModulus_call Z.mul Z.add Z.sqrt id (mkComplex 3 (-4)) = 5.
Proof. reflexivity. Qed.

(** * In-place execution *)

(** X15 (in place, the destination's storage is overwritten).  When the
    filter runs in place and the output shares the pixel container of the
    destination, the threads of any list of partitions change the
    destination's own buffer: its cells that some partition holds and that
    lie in the paste region become the source cells shifted by [delta], and
    all its other cells keep their value.  The three images are attached,
    the source region is representable, the source image has a pixel
    container of its own and a default-constructed region is empty. *)
Theorem in_place_overwrites_destination {n Pixel} (bits : positive)
    (defaultRegion : ImageRegion n) (this : PasteImageFilter n)
    (dest source output : nat) (w : World n Pixel)
    (ps : list (ImageRegion n)) (tid : nat) :
  (∀ i, ¬ IsInside defaultRegion i) →
  GetInput this = Some dest →
  GetSourceImage this = Some source →
  GetOutput this = Some output →
  representableRegion bits (m_SourceRegion this) →
  bufferOf w source ≠ bufferOf w output →
  runsInPlace this = true →
  bufferOf w output = bufferOf w dest →
  ∃ w', GenerateData bits defaultRegion this ps tid w = Completed tt w'
        ∧ ∀ i, heap w' (bufferOf w dest) i
               = if bool_decide (covered ps i
                                 ∧ IsInside (sourceRegionInDestinationImage this) i)
                 then heap w (bufferOf w source) (index_add i (delta this))
                 else heap w (bufferOf w dest) i.
Proof.
  intros Hdef Hd Hs Ho Hrep Hso Hin Halias.
  destruct (GenerateData_cells bits defaultRegion this dest source output
              Hrep (λ _, Hdef) Hd Hs Ho ps tid w Hso)
    as (w' & Hrun & _ & _ & _ & Hout).
  exists w'. split; [done|]. intros i. rewrite <- Halias, Hout.
  unfold pasteCell. rewrite Hin.
  repeat case_bool_decide; try done; tauto.
Qed.

Lemma in_place_overwrites_destination_witness :
  ∃ w', GenerateData Scenario.bits Scenario.zeroRegion Scenario.pasteAt33InPlace
          Scenario.quadrants 0 Scenario.worldInPlace = Completed tt w'
        ∧ ∀ i, heap w' (bufferOf Scenario.worldInPlace 0) i
               = if bool_decide
                      (covered Scenario.quadrants i
                       ∧ IsInside
                           (sourceRegionInDestinationImage Scenario.pasteAt33InPlace) i)
                 then heap Scenario.worldInPlace (bufferOf Scenario.worldInPlace 1)
                           (index_add i (delta Scenario.pasteAt33InPlace))
                 else heap Scenario.worldInPlace (bufferOf Scenario.worldInPlace 0) i.
Proof.
  apply (in_place_overwrites_destination Scenario.bits Scenario.zeroRegion
           Scenario.pasteAt33InPlace 0 1 2 Scenario.worldInPlace
           Scenario.quadrants 0).
  - apply zero_region_empty.
  - reflexivity.
  - reflexivity.
  - reflexivity.
  - apply source_4x4_representable.
  - vm_compute. discriminate.
  - reflexivity.
  - reflexivity.
Defined.
